(** * Delay lines of the Computer Music Toolkit (src/delay.cpp)

    A shallow embedding of the delay-line plugin: the constructor of
    [DelayLine] with its buffer-sizing loop, [activateDelayLine],
    [runSimpleDelayLine] and [runFeedbackDelayLine].

    - [unsigned long] is a 64-bit word (LP64): a [Z] in [0, 2^64) with the
      wrap-around of every addition, subtraction and shift written out.
    - [LADSPA_Data] is declared in ladspa.h, which is not part of
      delay.cpp.  The arithmetic on samples is therefore taken as a
      parameter ([SampleOps]); the laws assumed of it ([SampleLaws]) are
      those of an ordered ring with a truncating conversion to the
      integers, the reading under which samples are real numbers.  The
      exact rationals [Qc] are an instance, used to run the model.
    - What C++ leaves undefined (a buffer access outside the allocation, a
      conversion to [unsigned long] of a value that does not fit) is the
      error result [None] in the option monad. *)

From Stdlib Require Import ZArith Lia Ring QArith Qcanon Qround.
From stdpp Require Import base option list numbers strings.

Local Open Scope Z_scope.

(** ** Machine words *)

Module Word.

Definition width : Z := 64.
Definition modulus : Z := 2 ^ width.

(** Reduction of an integer result to [unsigned long]. *)
Definition wrap (z : Z) : Z := z mod modulus.

Definition add (a b : Z) : Z := wrap (a + b).
Definition sub (a b : Z) : Z := wrap (a - b).
Definition shl1 (a : Z) : Z := wrap (Z.shiftl a 1).

Definition in_range (z : Z) : Prop := 0 <= z < modulus.

(** [c] is [2 ^ k] for some [k] that fits a word. *)
Definition pow2 (c : Z) : Prop := exists k, 0 <= k < width /\ c = 2 ^ k.

End Word.

(** ** Sample arithmetic *)

(** The operations delay.cpp applies to [LADSPA_Data] values: the literals
    [0], [1] and [-1], [+], [-], [*], the comparison [<] (and [>], its
    flip), the conversion [LADSPA_Data(lSampleRate)] and the truncation
    inside the cast [(unsigned long)(...)]. *)
Class SampleOps (D : Type) := {
  fzero : D;
  fone : D;
  fadd : D -> D -> D;
  fsub : D -> D -> D;
  fmul : D -> D -> D;
  fopp : D -> D;
  flt : D -> D -> bool;
  of_ulong : Z -> D;
  trunc : D -> Z
}.

Definition fle `{SampleOps D} (x y : D) : Prop := flt y x = false.

(** Laws of an ordered ring whose [trunc] rounds toward zero. *)
Class SampleLaws (D : Type) `{SampleOps D} : Prop := {
  sample_ring : ring_theory fzero fone fadd fmul fsub fopp (@eq D);
  flt_irrefl : forall x : D, flt x x = false;
  flt_trans : forall x y z : D, flt x y = true -> flt y z = true -> flt x z = true;
  flt_total : forall x y : D, flt x y = false -> flt y x = false -> x = y;
  flt_add_r : forall x y z : D, flt x y = true -> flt (fadd x z) (fadd y z) = true;
  flt_mul_pos : forall x y : D,
      flt fzero x = true -> flt fzero y = true -> flt fzero (fmul x y) = true;
  flt_zero_one : flt fzero fone = true;
  of_ulong_nonneg : forall z : Z, 0 <= z -> fle fzero (of_ulong z);
  of_ulong_zero : of_ulong 0 = fzero;
  trunc_of_ulong : forall z : Z, trunc (of_ulong z) = z;
  trunc_mono : forall x y : D, fle x y -> trunc x <= trunc y
}.

Section Engine.

Context {D : Type} `{SampleOps D}.

(** [#define LIMIT_BETWEEN(x, a, b) (((x) < a) ? a : (((x) > b) ? b : (x)))] *)
Definition LIMIT_BETWEEN (x a b : D) : D :=
  if flt x a then a else if flt b x then b else x.

(** The cast [(unsigned long) f] of a sample: the value truncated toward
    zero when that fits a word, undefined otherwise. *)
Definition to_ulong (f : D) : option Z :=
  let t := trunc f in
  if (0 <=? t) && (t <? Word.modulus) then Some t else None.

(** *** The instance *)

(** [class DelayLine]: the fields declared at lines 69-79.  The array
    [m_pfBuffer] points to is the list of its elements. *)
Record DelayLine := mkDelayLine {
  m_fSampleRate : D;
  m_fMaximumDelay : D;
  m_pfBuffer : list D;
  m_lBufferSize : Z;
  m_lWritePointer : Z
}.

(** What [m_ppfPorts] points to when a block is run: the two (or three)
    control values and the input block, whose length is [SampleCount].
    The output block is the result of the run. *)
Record Ports := mkPorts {
  DL_DELAY_LENGTH : D;
  DL_DRY_WET : D;
  DL_INPUT : list D;
  DL_FEEDBACK : D
}.

(** [pfBuffer[i]] read and written; an index outside the allocation is
    undefined behaviour. *)
Definition buffer_load (pfBuffer : list D) (i : Z) : option D :=
  if 0 <=? i then pfBuffer !! Z.to_nat i else None.

Definition buffer_store (pfBuffer : list D) (i : Z) (v : D) : option (list D) :=
  if (0 <=? i) && (i <? Z.of_nat (length pfBuffer))
  then Some (<[Z.to_nat i := v]> pfBuffer) else None.

(** *** Construction *)

(** [while (m_lBufferSize < lMinimumBufferSize) m_lBufferSize <<= 1;]
    run for at most [fuel] iterations; [None] when the loop is still
    running after them. *)
Fixpoint grow_buffer (fuel : nat) (lBufferSize lMinimumBufferSize : Z) : option Z :=
  if lBufferSize <? lMinimumBufferSize then
    match fuel with
    | O => None
    | S fuel' => grow_buffer fuel' (Word.shl1 lBufferSize) lMinimumBufferSize
    end
  else Some lBufferSize.

(** [DelayLine::DelayLine].  [new LADSPA_Data[m_lBufferSize]] leaves the
    elements indeterminate and the constructor does not set
    [m_lWritePointer]: [fresh] gives the elements found in the allocation
    and [lStale] the word found in the pointer field. *)
Definition DelayLine_new (fuel : nat) (lSampleRate : Z) (fMaximumDelay : D)
    (fresh : nat -> D) (lStale : Z) : option DelayLine :=
  lFloor ← to_ulong (fmul (of_ulong lSampleRate) fMaximumDelay);
  let lMinimumBufferSize := Word.add lFloor 1 in
  lBufferSize ← grow_buffer fuel 1 lMinimumBufferSize;
  Some {| m_fSampleRate := of_ulong lSampleRate;
          m_fMaximumDelay := fMaximumDelay;
          m_pfBuffer := map fresh (seq 0 (Z.to_nat lBufferSize));
          m_lBufferSize := lBufferSize;
          m_lWritePointer := Word.wrap lStale |}.

(** *** Activation *)

(** [activateDelayLine]: [memset] over the first [m_lBufferSize]
    elements, then the write pointer is reset. *)
Definition activateDelayLine (Instance : DelayLine) : DelayLine :=
  let n := Z.to_nat (m_lBufferSize Instance) in
  {| m_fSampleRate := m_fSampleRate Instance;
     m_fMaximumDelay := m_fMaximumDelay Instance;
     m_pfBuffer := replicate n fzero ++ drop n (m_pfBuffer Instance);
     m_lBufferSize := m_lBufferSize Instance;
     m_lWritePointer := 0 |}.

(** *** Running a block *)

(** [lDelay] as both run functions first compute it (lines 136-140 and
    186-190). *)
Definition delay_samples (Instance : DelayLine) (fDelay : D) : option Z :=
  to_ulong (fmul (LIMIT_BETWEEN fDelay fzero (m_fMaximumDelay Instance))
                 (m_fSampleRate Instance)).

(** The loop of [runSimpleDelayLine] (lines 160-169): the input sample is
    stored, then the delayed sample is loaded from the buffer as stored. *)
Fixpoint simple_loop (pfBuffer : list D)
    (lBufferSizeMinusOne lBufferWriteOffset lBufferReadOffset : Z)
    (fDry fWet : D) (lSampleIndex : Z) (pfInput : list D)
    : option (list D * list D) :=
  match pfInput with
  | [] => Some ([], pfBuffer)
  | fInputSample :: pfInput' =>
      pfBuffer1 ← buffer_store pfBuffer
        (Z.land (Word.add lSampleIndex lBufferWriteOffset) lBufferSizeMinusOne)
        fInputSample;
      fDelayed ← buffer_load pfBuffer1
        (Z.land (Word.add lSampleIndex lBufferReadOffset) lBufferSizeMinusOne);
      '(pfOutput', pfBuffer2) ← simple_loop pfBuffer1 lBufferSizeMinusOne
        lBufferWriteOffset lBufferReadOffset fDry fWet
        (Word.add lSampleIndex 1) pfInput';
      Some (fadd (fmul fDry fInputSample) (fmul fWet fDelayed) :: pfOutput',
            pfBuffer2)
  end.

(** [runSimpleDelayLine]: the output block and the instance after it. *)
Definition runSimpleDelayLine (Instance : DelayLine) (ports : Ports)
    : option (list D * DelayLine) :=
  let SampleCount := Z.of_nat (length (DL_INPUT ports)) in
  let lBufferSizeMinusOne := Word.sub (m_lBufferSize Instance) 1 in
  lDelay ← delay_samples Instance (DL_DELAY_LENGTH ports);
  let lBufferWriteOffset := m_lWritePointer Instance in
  let lBufferReadOffset :=
    Word.sub (Word.add lBufferWriteOffset (m_lBufferSize Instance)) lDelay in
  let fWet := LIMIT_BETWEEN (DL_DRY_WET ports) fzero fone in
  let fDry := fsub fone fWet in
  '(pfOutput, pfBuffer) ← simple_loop (m_pfBuffer Instance) lBufferSizeMinusOne
    lBufferWriteOffset lBufferReadOffset fDry fWet 0 (DL_INPUT ports);
  Some (pfOutput,
        {| m_fSampleRate := m_fSampleRate Instance;
           m_fMaximumDelay := m_fMaximumDelay Instance;
           m_pfBuffer := pfBuffer;
           m_lBufferSize := m_lBufferSize Instance;
           m_lWritePointer :=
             Z.land (Word.add (m_lWritePointer Instance) SampleCount)
                    lBufferSizeMinusOne |}).

(** The loop of [runFeedbackDelayLine] (lines 220-233): the delayed
    sample is loaded first (the reference [fDelayedSample] is read twice
    with no store to the buffer in between), the store comes last. *)
Fixpoint feedback_loop (pfBuffer : list D)
    (lBufferSizeMinusOne lBufferWriteOffset lBufferReadOffset : Z)
    (fDry fWet fFeedback : D) (lSampleIndex : Z) (pfInput : list D)
    : option (list D * list D) :=
  match pfInput with
  | [] => Some ([], pfBuffer)
  | fInputSample :: pfInput' =>
      fDelayedSample ← buffer_load pfBuffer
        (Z.land (Word.add lSampleIndex lBufferReadOffset) lBufferSizeMinusOne);
      pfBuffer1 ← buffer_store pfBuffer
        (Z.land (Word.add lSampleIndex lBufferWriteOffset) lBufferSizeMinusOne)
        (fadd fInputSample (fmul fDelayedSample fFeedback));
      '(pfOutput', pfBuffer2) ← feedback_loop pfBuffer1 lBufferSizeMinusOne
        lBufferWriteOffset lBufferReadOffset fDry fWet fFeedback
        (Word.add lSampleIndex 1) pfInput';
      Some (fadd (fmul fDry fInputSample) (fmul fWet fDelayedSample) :: pfOutput',
            pfBuffer2)
  end.

(** Lines 191-196: [if (lDelay == 0) lDelay = 1;] *)
Definition feedback_delay (lDelay : Z) : Z :=
  if lDelay =? 0 then 1 else lDelay.

(** [runFeedbackDelayLine]. *)
Definition runFeedbackDelayLine (Instance : DelayLine) (ports : Ports)
    : option (list D * DelayLine) :=
  let SampleCount := Z.of_nat (length (DL_INPUT ports)) in
  let lBufferSizeMinusOne := Word.sub (m_lBufferSize Instance) 1 in
  lDelay0 ← delay_samples Instance (DL_DELAY_LENGTH ports);
  let lDelay := feedback_delay lDelay0 in
  let lBufferWriteOffset := m_lWritePointer Instance in
  let lBufferReadOffset :=
    Word.sub (Word.add lBufferWriteOffset (m_lBufferSize Instance)) lDelay in
  let fWet := LIMIT_BETWEEN (DL_DRY_WET ports) fzero fone in
  let fDry := fsub fone fWet in
  let fFeedback := LIMIT_BETWEEN (DL_FEEDBACK ports) (fopp fone) fone in
  '(pfOutput, pfBuffer) ← feedback_loop (m_pfBuffer Instance) lBufferSizeMinusOne
    lBufferWriteOffset lBufferReadOffset fDry fWet fFeedback 0 (DL_INPUT ports);
  Some (pfOutput,
        {| m_fSampleRate := m_fSampleRate Instance;
           m_fMaximumDelay := m_fMaximumDelay Instance;
           m_pfBuffer := pfBuffer;
           m_lBufferSize := m_lBufferSize Instance;
           m_lWritePointer :=
             Z.land (Word.add (m_lWritePointer Instance) SampleCount)
                    lBufferSizeMinusOne |}).

(** *** The two plugin types *)

(** [afRunFunctions]: the run function of an "Echo" and of a "Feedback"
    descriptor. *)
Inductive DelayType := Echo | Feedback.

Definition afRunFunctions (t : DelayType)
    : DelayLine -> Ports -> option (list D * DelayLine) :=
  match t with
  | Echo => runSimpleDelayLine
  | Feedback => runFeedbackDelayLine
  end.

(** A host running one block after the other on the same instance. *)
Fixpoint run_blocks (t : DelayType) (Instance : DelayLine) (calls : list Ports)
    : option (list (list D) * DelayLine) :=
  match calls with
  | [] => Some ([], Instance)
  | ports :: calls' =>
      '(pfOutput, Instance1) ← afRunFunctions t Instance ports;
      '(outputs, Instance2) ← run_blocks t Instance1 calls';
      Some (pfOutput :: outputs, Instance2)
  end.

End Engine.

Arguments DelayLine D : clear implicits.
Arguments Ports D : clear implicits.

(** ** Notions the properties are stated with *)

Section Notions.

Context {D : Type} `{SampleOps D}.

(** The state of an instance that [DelayLine::DelayLine] builds from a
    non-negative maximum delay, kept by activation and by every run: the
    buffer size is a power of two, it is the length of the allocation,
    and it exceeds the largest delay in samples the instance accepts. *)
Record wf (e : DelayLine D) : Prop := mk_wf {
  wf_size : Word.pow2 (m_lBufferSize e);
  wf_alloc : Z.of_nat (length (m_pfBuffer e)) = m_lBufferSize e;
  wf_pointer : Word.in_range (m_lWritePointer e);
  wf_rate : fle fzero (m_fSampleRate e);
  wf_max : fle fzero (m_fMaximumDelay e);
  wf_fit : trunc (fmul (m_fSampleRate e) (m_fMaximumDelay e)) < m_lBufferSize e
}.

(** The sample at time [s] of a stream that was silent before time 0. *)
Definition at_time (stream : list D) (s : Z) : D :=
  if s <? 0 then fzero else default fzero (stream !! Z.to_nat s).

(** An echo as a function of streams: the samples [input] that follow
    the samples [past], each mixed with the one [lDelay] samples
    earlier. *)
Fixpoint echo_stream (fDry fWet : D) (lDelay : Z) (past input : list D) : list D :=
  match input with
  | [] => []
  | x :: input' =>
      fadd (fmul fDry x)
           (fmul fWet (at_time (past ++ [x]) (Z.of_nat (length past) - lDelay)))
      :: echo_stream fDry fWet lDelay (past ++ [x]) input'
  end.

(** A buffer of size [c] that holds the last [c] samples of the stream
    [past], the sample of time [s] at slot [s mod c]. *)
Definition holds_past (c : Z) (buf past : list D) : Prop :=
  forall s, Z.of_nat (length past) - c <= s < Z.of_nat (length past) ->
    buf !! Z.to_nat (s mod c) = Some (at_time past s).

(** [p] silent samples, one sample equal to 1, [q] silent samples. *)
Definition impulse (p q : nat) : list D :=
  replicate p fzero ++ fone :: replicate q fzero.

(** The calls of a host that runs the blocks of a stream with the same
    delay and dry/wet controls for each. *)
Definition echo_calls (fDelay fWet : D) (blocks : list (list D)) : list (Ports D) :=
  map (fun block => mkPorts fDelay fWet block fzero) blocks.

(** [c] is a power of two. *)
Definition is_pow2 (c : Z) : Prop := exists k, 0 <= k /\ c = 2 ^ k.

(** [c] is the smallest power of two strictly greater than [n]. *)
Definition smallest_pow2_above (n c : Z) : Prop :=
  is_pow2 c /\ n < c /\ forall c', is_pow2 c' -> n < c' -> c <= c'.

(** The loop of the plain delay with the order of section 4.2, step 4 of
    the specification ("read old value, then write new value"): the
    delayed sample is loaded before the input sample is stored. *)
Fixpoint simple_loop_read_first (pfBuffer : list D)
    (lBufferSizeMinusOne lBufferWriteOffset lBufferReadOffset : Z)
    (fDry fWet : D) (lSampleIndex : Z) (pfInput : list D)
    : option (list D * list D) :=
  match pfInput with
  | [] => Some ([], pfBuffer)
  | fInputSample :: pfInput' =>
      fDelayed ← buffer_load pfBuffer
        (Z.land (Word.add lSampleIndex lBufferReadOffset) lBufferSizeMinusOne);
      pfBuffer1 ← buffer_store pfBuffer
        (Z.land (Word.add lSampleIndex lBufferWriteOffset) lBufferSizeMinusOne)
        fInputSample;
      '(pfOutput', pfBuffer2) ← simple_loop_read_first pfBuffer1
        lBufferSizeMinusOne lBufferWriteOffset lBufferReadOffset fDry fWet
        (Word.add lSampleIndex 1) pfInput';
      Some (fadd (fmul fDry fInputSample) (fmul fWet fDelayed) :: pfOutput',
            pfBuffer2)
  end.

(** [y] is [x] saturated to the range from [a] to [b]. *)
Definition saturated (x a b y : D) : Prop :=
  fle a y /\ fle y b /\
  (flt x a = true -> y = a) /\
  (flt b x = true -> y = b) /\
  (fle a x -> fle x b -> y = x).

(** The block sizes of a sequence of calls, and their sum. *)
Definition block_sizes (calls : list (Ports D)) : list Z :=
  map (fun ports => Z.of_nat (length (DL_INPUT ports))) calls.

Definition total (sizes : list Z) : Z := foldr Z.add 0 sizes.

End Notions.

(** ** The two delays as functions of streams *)

Section StreamNotions.

Context {D : Type} `{SampleOps D}.

(** The delay in samples a run computes from the delay control, when the
    cast is defined. *)
Definition control_delay (e : DelayLine D) (ports : Ports D) : Z :=
  trunc (fmul (LIMIT_BETWEEN (DL_DELAY_LENGTH ports) fzero (m_fMaximumDelay e))
              (m_fSampleRate e)).

(** The echoes of the blocks of a sequence of calls, each block with the
    controls of its own call, the stream being what was put in so far. *)
Fixpoint echo_blocks (e : DelayLine D) (past : list D) (calls : list (Ports D))
    : list (list D) :=
  match calls with
  | [] => []
  | ports :: calls' =>
      let fWet := LIMIT_BETWEEN (DL_DRY_WET ports) fzero fone in
      echo_stream (fsub fone fWet) fWet (control_delay e ports) past (DL_INPUT ports)
      :: echo_blocks e (past ++ DL_INPUT ports) calls'
  end.

(** A feedback comb as a function of streams: [stored] are the samples
    stored so far, one per input sample; every input sample is mixed with
    the stored sample [lDelay] samples back, and is stored with that sample
    times the feedback added.  The result is the output block and the
    stored samples with those of the block appended. *)
Fixpoint feedback_stream (fDry fWet fFeedback : D) (lDelay : Z)
    (stored input : list D) : list D * list D :=
  match input with
  | [] => ([], stored)
  | x :: input' =>
      let v := at_time stored (Z.of_nat (length stored) - lDelay) in
      let '(out, stored') :=
        feedback_stream fDry fWet fFeedback lDelay
          (stored ++ [fadd x (fmul v fFeedback)]) input' in
      (fadd (fmul fDry x) (fmul fWet v) :: out, stored')
  end.

(** The feedback combs of the blocks of a sequence of calls, each block
    with the controls of its own call. *)
Fixpoint feedback_blocks (e : DelayLine D) (stored : list D) (calls : list (Ports D))
    : list (list D) :=
  match calls with
  | [] => []
  | ports :: calls' =>
      let fWet := LIMIT_BETWEEN (DL_DRY_WET ports) fzero fone in
      let fFeedback := LIMIT_BETWEEN (DL_FEEDBACK ports) (fopp fone) fone in
      let '(out, stored') :=
        feedback_stream (fsub fone fWet) fWet fFeedback
          (feedback_delay (control_delay e ports)) stored (DL_INPUT ports) in
      out :: feedback_blocks e stored' calls'
  end.

(** The calls of a host that runs the blocks of a stream with the same
    delay, dry/wet and feedback controls for each. *)
Definition feedback_calls (fDelay fWet fFeedback : D) (blocks : list (list D))
    : list (Ports D) :=
  map (fun block => mkPorts fDelay fWet block fFeedback) blocks.

(** The power [g ^ n]. *)
Fixpoint fpow (g : D) (n : nat) : D :=
  match n with
  | O => fone
  | S n' => fmul g (fpow g n')
  end.

(** A train of impulses [lDelay] samples apart, each [g] times the one
    before, the first of them 1 at time 0. *)
Definition comb_response (g : D) (lDelay : Z) (s : Z) : D :=
  if (0 <=? s) && (s mod lDelay =? 0) then fpow g (Z.to_nat (s / lDelay)) else fzero.

(** The slots a run of [n] samples stores to, from write pointer [w] in a
    buffer of size [c]. *)
Definition written (c w : Z) (n : nat) (k : nat) : Prop :=
  exists j : nat, (j < n)%nat /\ k = Z.to_nat ((w + Z.of_nat j) mod c).

End StreamNotions.

(** ** Exact rational samples *)

Module Rational.

Definition Qc_ltb (x y : Qc) : bool :=
  match (x ?= y)%Qc with Lt => true | _ => false end.

(** Truncation toward zero of a fraction. *)
Definition Qc_trunc (x : Qc) : Z := Z.quot (Qnum x) (Zpos (Qden x)).

#[export] Instance Qc_ops : SampleOps Qc := {|
  fzero := 0%Qc;
  fone := 1%Qc;
  fadd := Qcplus;
  fsub := Qcminus;
  fmul := Qcmult;
  fopp := Qcopp;
  flt := Qc_ltb;
  of_ulong := fun z => Q2Qc (inject_Z z);
  trunc := Qc_trunc
|}.

(** The fraction [n / d]. *)
Definition frac (n : Z) (d : positive) : Qc := Q2Qc (n # d).

(** The fractions behind the samples of a block, for reading off
    results. *)
Definition readout (l : list Qc) : list Q := map (fun x : Qc => this x) l.

(** A block of whole-numbered samples. *)
Definition samples (l : list Z) : list Qc := map (fun z => Q2Qc (inject_Z z)) l.

(** Rounding to the nearest integer, halves upward. *)
Definition round_nearest (x : Qc) : Z := Qfloor (x + frac 1 2)%Qc.

End Rational.

(** ** A small instance *)

Module Demo.

Import Rational.

(** What the allocation and the pointer field hold before activation. *)
Definition fresh (_ : nat) : Qc := frac 7 1.
Definition lStale : Z := 12345.

(** The instance for a sample rate of 8 Hz and a maximum delay of one
    second as the constructor leaves it: 16 slots. *)
Definition raw : DelayLine Qc :=
  mkDelayLine (Q2Qc (inject_Z 8)) 1%Qc (replicate 16 (frac 7 1)) 16 12345.

(** The same instance, activated. *)
Definition line : DelayLine Qc :=
  mkDelayLine (Q2Qc (inject_Z 8)) 1%Qc (replicate 16 0%Qc) 16 0.

(** [line] after a block of 16 samples, the first of them 5. *)
Definition full_block : list Qc := samples (5 :: replicate 15 0)%Z.

Definition primed : DelayLine Qc :=
  mkDelayLine (Q2Qc (inject_Z 8)) 1%Qc full_block 16 0.

(** Controls and input of one call. *)
Definition call (fDelay fWet fFeedback : Qc) (block : list Z) : Ports Qc :=
  mkPorts fDelay fWet (samples block) fFeedback.

End Demo.

(** ** Registration of the plugins *)

Module Registry.

Import Rational.

Local Open Scope string_scope.

(** [#define DELAY_TYPE_COUNT 2] and [#define DELAY_LENGTH_COUNT 5]. *)
Definition DELAY_TYPE_COUNT : nat := 2.
Definition DELAY_LENGTH_COUNT : nat := 5.

(** The tables of [initialise_delay].  The run function of a delay type is
    given by its [DelayType]; an instantiate function
    [CMT_Delay_Instantiate<ms>] by its template argument; the decimal
    literals of [afMaximumDelays] are the fractions they denote. *)
Definition apcDelayTypeNames : list string := ["Echo"; "Feedback"].
Definition apcDelayTypeLabels : list string := ["delay"; "fbdelay"].
Definition aRunFunctions : list DelayType := [Echo; Feedback].
Definition afMaximumDelays : list Qc :=
  [frac 1 100; frac 1 10; frac 1 1; frac 5 1; frac 60 1].
Definition afMaximumDelayStrs : list string := ["0.01"; "0.1"; "1"; "5"; "60"].
Definition afInstantiateFunctions : list Z := [10; 100; 1000; 5000; 60000]%Z.

(** What [addPort] is called with. *)
Inductive PortDirection := LADSPA_PORT_INPUT | LADSPA_PORT_OUTPUT.
Inductive PortKind := LADSPA_PORT_CONTROL | LADSPA_PORT_AUDIO.
Inductive HintDefault :=
  LADSPA_HINT_DEFAULT_1 | LADSPA_HINT_DEFAULT_MIDDLE | LADSPA_HINT_DEFAULT_HIGH.

(** A range hint; every hint of this file is bounded below and above. *)
Record RangeHint := mkHint {
  hint_default : HintDefault;
  fLowerBound : Qc;
  fUpperBound : Qc
}.

Record Port := mkPort {
  port_direction : PortDirection;
  port_kind : PortKind;
  pcPortName : string;
  port_hint : option RangeHint
}.

(** What a [CMT_Descriptor] is constructed with, as far as it varies
    between the plugins: the unique ID, the label, the name, the
    instantiate function and the run function; and the ports added. *)
Record CMT_Descriptor := mkDescriptor {
  lUniqueID : Z;
  pcLabel : string;
  pcName : string;
  lInstantiateMilliseconds : Z;
  fRun : DelayType;
  aPorts : list Port
}.

(** [sprintf] into a [char[100]]: the text and its terminator must fit. *)
Definition sprintf_100 (text : string) : option string :=
  if decide (String.length text < 100)%nat then Some text else None.

(** The body of the inner loop (lines 303-365). *)
Definition describe (lDelayTypeIndex lDelayLengthIndex : nat) : option CMT_Descriptor :=
  let lPluginIndex := (lDelayTypeIndex * DELAY_LENGTH_COUNT + lDelayLengthIndex)%nat in
  pcTypeLabel ← apcDelayTypeLabels !! lDelayTypeIndex;
  pcTypeName ← apcDelayTypeNames !! lDelayTypeIndex;
  pcDelayStr ← afMaximumDelayStrs !! lDelayLengthIndex;
  fMaximumDelay ← afMaximumDelays !! lDelayLengthIndex;
  lMilliseconds ← afInstantiateFunctions !! lDelayLengthIndex;
  tRun ← aRunFunctions !! lDelayTypeIndex;
  acLabel ← sprintf_100 (pcTypeLabel ++ "_" ++ pcDelayStr ++ "s");
  acName ← sprintf_100 (pcTypeName ++ " Delay Line (Maximum Delay " ++ pcDelayStr ++ "s)");
  Some {|
    lUniqueID := 1053 + Z.of_nat lPluginIndex;
    pcLabel := acLabel;
    pcName := acName;
    lInstantiateMilliseconds := lMilliseconds;
    fRun := tRun;
    aPorts :=
      [mkPort LADSPA_PORT_INPUT LADSPA_PORT_CONTROL "Delay (Seconds)"
         (Some (mkHint LADSPA_HINT_DEFAULT_1 0%Qc fMaximumDelay));
       mkPort LADSPA_PORT_INPUT LADSPA_PORT_CONTROL "Dry/Wet Balance"
         (Some (mkHint LADSPA_HINT_DEFAULT_MIDDLE 0%Qc 1%Qc));
       mkPort LADSPA_PORT_INPUT LADSPA_PORT_AUDIO "Input" None;
       mkPort LADSPA_PORT_OUTPUT LADSPA_PORT_AUDIO "Output" None]
      ++ (if decide (lDelayTypeIndex = 1%nat)
          then [mkPort LADSPA_PORT_INPUT LADSPA_PORT_CONTROL "Feedback"
                  (Some (mkHint LADSPA_HINT_DEFAULT_HIGH (- 1)%Qc 1%Qc))]
          else [])
  |}.

(** [initialise_delay]: the descriptors passed to
    [registerNewPluginDescriptor], in the order of the two loops. *)
Definition initialise_delay : option (list CMT_Descriptor) :=
  perType ← mapM (fun lDelayTypeIndex =>
                    mapM (describe lDelayTypeIndex) (seq 0 DELAY_LENGTH_COUNT))
                 (seq 0 DELAY_TYPE_COUNT);
  Some (concat perType).

End Registry.

Import Rational.

(** ** Lemmas on words *)

Section WordFacts.

Lemma modulus_eq : Word.modulus = 18446744073709551616.
Proof. reflexivity. Qed.

Lemma pow2_bounds c : Word.pow2 c -> 1 <= c <= 2 ^ 63.
Proof.
  intros (k & Hk & ->). unfold Word.width in Hk. split.
  - assert (0 < 2 ^ k) by (apply Z.pow_pos_nonneg; lia). lia.
  - apply Z.pow_le_mono_r; lia.
Qed.

Lemma pow2_divides c : Word.pow2 c -> exists m, 0 < m /\ Word.modulus = c * m.
Proof.
  intros (k & Hk & ->). unfold Word.width in Hk.
  exists (2 ^ (64 - k)). split; [apply Z.pow_pos_nonneg; lia |].
  unfold Word.modulus, Word.width.
  rewrite <- Z.pow_add_r by lia. f_equal. lia.
Qed.

(** Reducing to a word does not change the residue modulo the size. *)
Lemma wrap_mod c z : Word.pow2 c -> Word.wrap z mod c = z mod c.
Proof.
  intros Hc. destruct (pow2_divides c Hc) as (m & Hm & Heq).
  pose proof (pow2_bounds c Hc).
  unfold Word.wrap. rewrite Heq.
  rewrite Z.rem_mul_r by lia.
  rewrite Z.mul_comm, Z.mod_add by lia. apply Z.mod_mod. lia.
Qed.

Lemma size_minus_one c : Word.pow2 c -> Word.sub c 1 = c - 1.
Proof.
  intros Hc. pose proof (pow2_bounds c Hc).
  unfold Word.sub, Word.wrap. apply Z.mod_small. rewrite modulus_eq. lia.
Qed.

(** Masking with [size - 1] is the remainder modulo [size]. *)
Lemma land_mask c z : Word.pow2 c -> Z.land z (Word.sub c 1) = z mod c.
Proof.
  intros Hc. rewrite size_minus_one by done.
  destruct Hc as (k & Hk & ->).
  rewrite <- Z.land_ones by lia. f_equal. rewrite Z.ones_equiv. lia.
Qed.

Lemma index_mod c a b :
  Word.pow2 c -> Z.land (Word.add a b) (Word.sub c 1) = (a + b) mod c.
Proof. intros Hc. rewrite land_mask by done. by apply wrap_mod. Qed.

Lemma index_range c a b :
  Word.pow2 c -> 0 <= Z.land (Word.add a b) (Word.sub c 1) < c.
Proof.
  intros Hc. rewrite index_mod by done.
  apply Z.mod_pos_bound. pose proof (pow2_bounds c Hc). lia.
Qed.

End WordFacts.

(** ** Consequences of the sample laws *)

Section SampleFacts.

Context {D : Type} `{SampleLaws D}.

Add Ring sample_ring_inst : sample_ring.

Lemma flt_asym (x y : D) : flt x y = true -> flt y x = false.
Proof.
  intros Hxy. destruct (flt y x) eqn:Hyx; [| done].
  pose proof (flt_trans _ _ _ Hxy Hyx) as Hxx.
  rewrite flt_irrefl in Hxx. discriminate.
Qed.

Lemma fle_refl (x : D) : fle x x.
Proof. apply flt_irrefl. Qed.

Lemma flt_fle (x y : D) : flt x y = true -> fle x y.
Proof. apply flt_asym. Qed.

Lemma fle_trans (x y z : D) : fle x y -> fle y z -> fle x z.
Proof.
  unfold fle. intros Hxy Hyz. destruct (flt z x) eqn:Hzx; [| done].
  destruct (flt x y) eqn:Hlt.
  - rewrite (flt_trans _ _ _ Hzx Hlt) in Hyz. discriminate.
  - rewrite (flt_total _ _ Hlt Hxy) in Hzx. congruence.
Qed.

Lemma fle_lt_or_eq (x y : D) : fle x y -> flt x y = true \/ x = y.
Proof.
  intros Hxy. destruct (flt x y) eqn:Hlt; [by left | right].
  by apply flt_total.
Qed.

Lemma fle_zero_one : fle (fzero : D) fone.
Proof. apply flt_fle, flt_zero_one. Qed.

Lemma fle_minus_one_zero : fle (fopp fone : D) fzero.
Proof.
  apply flt_fle.
  pose proof (flt_add_r _ _ (fopp fone) flt_zero_one) as Hlt.
  replace (fadd fzero (fopp fone)) with (fopp fone : D) in Hlt by ring.
  replace (fadd fone (fopp fone)) with (fzero : D) in Hlt by ring.
  exact Hlt.
Qed.

Lemma fle_minus_one_one : fle (fopp fone : D) fone.
Proof. apply fle_trans with fzero; [apply fle_minus_one_zero | apply fle_zero_one]. Qed.

Lemma fmul_nonneg (x y : D) : fle fzero x -> fle fzero y -> fle fzero (fmul x y).
Proof.
  intros Hx Hy.
  destruct (fle_lt_or_eq _ _ Hx) as [Hx' | <-];
    [| replace (fmul fzero y) with (fzero : D) by ring; apply fle_refl].
  destruct (fle_lt_or_eq _ _ Hy) as [Hy' | <-];
    [| replace (fmul x fzero) with (fzero : D) by ring; apply fle_refl].
  by apply flt_fle, flt_mul_pos.
Qed.

Lemma fmul_mono_l (x y z : D) : fle x y -> fle fzero z -> fle (fmul x z) (fmul y z).
Proof.
  intros Hxy Hz.
  destruct (fle_lt_or_eq _ _ Hxy) as [Hlt | <-]; [| apply fle_refl].
  destruct (fle_lt_or_eq _ _ Hz) as [Hz' | <-];
    [| replace (fmul x fzero) with (fmul y fzero) by ring; apply fle_refl].
  apply flt_fle.
  pose proof (flt_add_r _ _ (fopp x) Hlt) as Hd.
  replace (fadd x (fopp x)) with (fzero : D) in Hd by ring.
  pose proof (flt_mul_pos _ _ Hd Hz') as Hp.
  pose proof (flt_add_r _ _ (fmul x z) Hp) as Hs.
  replace (fadd fzero (fmul x z)) with (fmul x z) in Hs by ring.
  replace (fadd (fmul (fadd y (fopp x)) z) (fmul x z)) with (fmul y z) in Hs by ring.
  exact Hs.
Qed.

Lemma trunc_zero : trunc (fzero : D) = 0.
Proof. rewrite <- of_ulong_zero. apply trunc_of_ulong. Qed.

Lemma trunc_nonneg (x : D) : fle fzero x -> 0 <= trunc x.
Proof. intros Hx. rewrite <- trunc_zero. by apply trunc_mono. Qed.

(** *** Clamping *)

Lemma LIMIT_BETWEEN_range (x a b : D) :
  fle a b -> fle a (LIMIT_BETWEEN x a b) /\ fle (LIMIT_BETWEEN x a b) b.
Proof.
  intros Hab. unfold LIMIT_BETWEEN.
  destruct (flt x a) eqn:Hxa; [split; [apply fle_refl | done] |].
  destruct (flt b x) eqn:Hbx; [split; [done | apply fle_refl] |].
  split; done.
Qed.

Lemma LIMIT_BETWEEN_below (x a b : D) :
  flt x a = true -> LIMIT_BETWEEN x a b = a.
Proof. intros Hxa. unfold LIMIT_BETWEEN. by rewrite Hxa. Qed.

Lemma LIMIT_BETWEEN_above (x a b : D) :
  fle a b -> flt b x = true -> LIMIT_BETWEEN x a b = b.
Proof.
  intros Hab Hbx. unfold LIMIT_BETWEEN. rewrite Hbx.
  destruct (flt x a) eqn:Hxa; [| done].
  unfold fle in Hab. rewrite (flt_trans _ _ _ Hbx Hxa) in Hab. discriminate.
Qed.

Lemma LIMIT_BETWEEN_inside (x a b : D) :
  fle a x -> fle x b -> LIMIT_BETWEEN x a b = x.
Proof. unfold fle, LIMIT_BETWEEN. by intros -> ->. Qed.

End SampleFacts.

(** ** The rationals satisfy the sample laws *)

Section RationalFacts.

Local Open Scope Qc_scope.

Lemma Qc_ltb_lt (x y : Qc) : Qc_ltb x y = true <-> x < y.
Proof.
  unfold Qc_ltb. rewrite Qclt_alt.
  destruct (x ?= y); split; congruence.
Qed.

Lemma Qc_ltb_ge (x y : Qc) : Qc_ltb x y = false <-> y ≤ x.
Proof.
  rewrite Qcle_ngt, <- Qc_ltb_lt. destruct (Qc_ltb x y); split; congruence.
Qed.

Lemma fle_Qcle (x y : Qc) : fle x y <-> x ≤ y.
Proof. apply Qc_ltb_ge. Qed.

(** Truncation does not depend on the representative of a fraction. *)
Lemma quot_fraction (a c : Z) (b d : positive) :
  (a * Zpos d <= c * Zpos b)%Z -> (a ÷ Zpos b <= c ÷ Zpos d)%Z.
Proof.
  intros Hle.
  rewrite <- (Z.quot_mul_cancel_r a (Zpos b) (Zpos d)) by done.
  rewrite <- (Z.quot_mul_cancel_r c (Zpos d) (Zpos b)) by done.
  rewrite (Z.mul_comm (Zpos d) (Zpos b)).
  apply Z.quot_le_mono; [lia | exact Hle].
Qed.

Lemma Qc_trunc_mono (x y : Qc) : x ≤ y -> (Qc_trunc x <= Qc_trunc y)%Z.
Proof. intros Hxy. apply quot_fraction, Hxy. Qed.

Lemma Qc_trunc_of_Z (z : Z) : Qc_trunc (Q2Qc (inject_Z z)) = z.
Proof.
  unfold Qc_trunc. cbn [Q2Qc this]. rewrite inject_Z_Qred.
  cbn. apply Z.quot_1_r.
Qed.

#[export] Instance Qc_laws : SampleLaws Qc.
Proof.
  split.
  - exact Qcrt.
  - intros x. apply Qc_ltb_ge, Qcle_refl.
  - intros x y z. rewrite !Qc_ltb_lt. apply Qclt_trans.
  - intros x y. rewrite !Qc_ltb_ge. intros. by apply Qcle_antisym.
  - intros x y z. rewrite !Qc_ltb_lt. apply Qcplus_lt_mono_r.
  - intros x y. rewrite !Qc_ltb_lt. apply Qcmult_pos_pos.
  - by apply Qc_ltb_lt.
  - intros z Hz. apply fle_Qcle.
    change (inject_Z 0 <= Qred (inject_Z z))%Q.
    rewrite inject_Z_Qred. unfold Qle. simpl. lia.
  - by apply Qc_is_canon.
  - exact Qc_trunc_of_Z.
  - intros x y Hxy. apply Qc_trunc_mono, fle_Qcle, Hxy.
Qed.

End RationalFacts.

(** ** The buffer and the two loops *)

Section LoopFacts.

Context {D : Type} `{SampleOps D}.

Implicit Types (buf : list D) (x v : D) (i w r c : Z).

Lemma buffer_store_in_range buf i v :
  0 <= i < Z.of_nat (length buf) ->
  buffer_store buf i v = Some (<[Z.to_nat i := v]> buf).
Proof.
  intros [Hlo Hhi]. unfold buffer_store.
  apply Z.leb_le in Hlo. apply Z.ltb_lt in Hhi. by rewrite Hlo, Hhi.
Qed.

Lemma buffer_load_lookup buf i :
  0 <= i -> buffer_load buf i = buf !! Z.to_nat i.
Proof. intros Hlo. unfold buffer_load. apply Z.leb_le in Hlo. by rewrite Hlo. Qed.

Lemma slot_in_range buf c z :
  Word.pow2 c -> Z.of_nat (length buf) = c ->
  0 <= z mod c < Z.of_nat (length buf).
Proof.
  intros Hc Hlen. rewrite Hlen. apply Z.mod_pos_bound.
  pose proof (pow2_bounds c Hc). lia.
Qed.

Lemma slot_lookup buf c z :
  Word.pow2 c -> Z.of_nat (length buf) = c ->
  exists v, buf !! Z.to_nat (z mod c) = Some v.
Proof.
  intros Hc Hlen. apply lookup_lt_is_Some_2.
  pose proof (slot_in_range buf c z Hc Hlen). lia.
Qed.

(** One iteration of the plain loop: the store at slot [(i + w) mod c],
    then the load at slot [(i + r) mod c] of the buffer as stored. *)
Lemma simple_loop_step c buf w r (fDry fWet : D) i x rest :
  Word.pow2 c -> Z.of_nat (length buf) = c ->
  exists v,
    <[Z.to_nat ((i + w) mod c) := x]> buf !! Z.to_nat ((i + r) mod c) = Some v /\
    simple_loop buf (Word.sub c 1) w r fDry fWet i (x :: rest) =
      ('(out, buf2) ← simple_loop (<[Z.to_nat ((i + w) mod c) := x]> buf)
                        (Word.sub c 1) w r fDry fWet (Word.add i 1) rest;
       Some (fadd (fmul fDry x) (fmul fWet v) :: out, buf2)).
Proof.
  intros Hc Hlen.
  destruct (slot_lookup (<[Z.to_nat ((i + w) mod c) := x]> buf) c (i + r) Hc)
    as [v Hv]; [by rewrite length_insert |].
  exists v. split; [done |].
  cbn [simple_loop]. rewrite !index_mod by done.
  rewrite buffer_store_in_range by (by apply slot_in_range).
  cbn [mbind option_bind].
  rewrite buffer_load_lookup, Hv by (apply Z.mod_pos_bound; pose proof (pow2_bounds c Hc); lia).
  done.
Qed.

(** One iteration of the feedback loop: the load at slot
    [(i + r) mod c], then the store at slot [(i + w) mod c]. *)
Lemma feedback_loop_step c buf w r (fDry fWet fFeedback : D) i x rest :
  Word.pow2 c -> Z.of_nat (length buf) = c ->
  exists v,
    buf !! Z.to_nat ((i + r) mod c) = Some v /\
    feedback_loop buf (Word.sub c 1) w r fDry fWet fFeedback i (x :: rest) =
      ('(out, buf2) ← feedback_loop
                        (<[Z.to_nat ((i + w) mod c) := fadd x (fmul v fFeedback)]> buf)
                        (Word.sub c 1) w r fDry fWet fFeedback (Word.add i 1) rest;
       Some (fadd (fmul fDry x) (fmul fWet v) :: out, buf2)).
Proof.
  intros Hc Hlen.
  destruct (slot_lookup buf c (i + r) Hc Hlen) as [v Hv].
  exists v. split; [done |].
  cbn [feedback_loop]. rewrite !index_mod by done.
  rewrite buffer_load_lookup, Hv by (apply Z.mod_pos_bound; pose proof (pow2_bounds c Hc); lia).
  cbn [mbind option_bind].
  rewrite buffer_store_in_range by (by apply slot_in_range).
  done.
Qed.

(** Neither loop ever leaves the allocation: whatever the offsets and
    the first index, a block of any length is processed, one output
    sample per input sample, and the buffer keeps its length. *)
Lemma simple_loop_runs c w r (fDry fWet : D) input : forall buf i,
  Word.pow2 c -> Z.of_nat (length buf) = c ->
  exists out buf',
    simple_loop buf (Word.sub c 1) w r fDry fWet i input = Some (out, buf') /\
    length out = length input /\ length buf' = length buf.
Proof.
  induction input as [| x rest IH]; intros buf i Hc Hlen.
  - by exists [], buf.
  - destruct (simple_loop_step c buf w r fDry fWet i x rest Hc Hlen)
      as (v & _ & ->).
    destruct (IH (<[Z.to_nat ((i + w) mod c) := x]> buf) (Word.add i 1) Hc)
      as (out & buf' & -> & Hout & Hbuf); [by rewrite length_insert |].
    eexists _, _. split; [done |]. cbn. rewrite Hout, Hbuf, length_insert. done.
Qed.

Lemma feedback_loop_runs c w r (fDry fWet fFeedback : D) input : forall buf i,
  Word.pow2 c -> Z.of_nat (length buf) = c ->
  exists out buf',
    feedback_loop buf (Word.sub c 1) w r fDry fWet fFeedback i input
      = Some (out, buf') /\
    length out = length input /\ length buf' = length buf.
Proof.
  induction input as [| x rest IH]; intros buf i Hc Hlen.
  - by exists [], buf.
  - destruct (feedback_loop_step c buf w r fDry fWet fFeedback i x rest Hc Hlen)
      as (v & _ & ->).
    destruct (IH (<[Z.to_nat ((i + w) mod c) := fadd x (fmul v fFeedback)]> buf)
                 (Word.add i 1) Hc)
      as (out & buf' & -> & Hout & Hbuf); [by rewrite length_insert |].
    eexists _, _. split; [done |]. cbn. rewrite Hout, Hbuf, length_insert. done.
Qed.

End LoopFacts.

(** ** Instances: construction, activation, runs *)

Section EngineFacts.

Context {D : Type} `{SampleLaws D}.

Add Ring sample_ring_engine : sample_ring.

Implicit Types (e : DelayLine D) (ports : Ports D).

Lemma wf_size_bounds e : wf e -> 1 <= m_lBufferSize e <= 2 ^ 63.
Proof. intros He. apply pow2_bounds, He. Qed.

(** The delay in samples of a well-formed instance is defined, and is
    smaller than the buffer, whatever the control value. *)
Lemma delay_samples_wf e (fDelay : D) :
  wf e ->
  exists lDelay,
    delay_samples e fDelay = Some lDelay /\ 0 <= lDelay < m_lBufferSize e.
Proof.
  intros He. pose proof (wf_size_bounds e He) as Hc.
  destruct (LIMIT_BETWEEN_range fDelay fzero (m_fMaximumDelay e) (wf_max e He))
    as [Hlo Hhi].
  set (x := LIMIT_BETWEEN fDelay fzero (m_fMaximumDelay e)) in *.
  assert (0 <= trunc (fmul x (m_fSampleRate e))) as Hnn
    by (apply trunc_nonneg, fmul_nonneg; [done | apply (wf_rate e He)]).
  assert (trunc (fmul x (m_fSampleRate e)) < m_lBufferSize e) as Hlt.
  { eapply Z.le_lt_trans; [| apply (wf_fit e He)].
    apply trunc_mono.
    replace (fmul (m_fSampleRate e) (m_fMaximumDelay e))
      with (fmul (m_fMaximumDelay e) (m_fSampleRate e)) by ring.
    apply fmul_mono_l; [done | apply (wf_rate e He)]. }
  exists (trunc (fmul x (m_fSampleRate e))). split; [| lia].
  unfold delay_samples, to_ulong. fold x.
  apply Z.leb_le in Hnn as ->.
  assert (trunc (fmul x (m_fSampleRate e)) < Word.modulus) as Hm
    by (rewrite modulus_eq; lia).
  apply Z.ltb_lt in Hm as ->. done.
Qed.

(** [runSimpleDelayLine] once the delay is known. *)
Lemma runSimpleDelayLine_eq e ports lDelay :
  wf e -> delay_samples e (DL_DELAY_LENGTH ports) = Some lDelay ->
  runSimpleDelayLine e ports =
    ('(out, buf) ← simple_loop (m_pfBuffer e) (Word.sub (m_lBufferSize e) 1)
                     (m_lWritePointer e)
                     (Word.sub (Word.add (m_lWritePointer e) (m_lBufferSize e)) lDelay)
                     (fsub fone (LIMIT_BETWEEN (DL_DRY_WET ports) fzero fone))
                     (LIMIT_BETWEEN (DL_DRY_WET ports) fzero fone)
                     0 (DL_INPUT ports);
     Some (out, mkDelayLine (m_fSampleRate e) (m_fMaximumDelay e) buf
                  (m_lBufferSize e)
                  ((m_lWritePointer e + Z.of_nat (length (DL_INPUT ports)))
                     mod m_lBufferSize e))).
Proof.
  intros He Hd. unfold runSimpleDelayLine. rewrite Hd. cbn [mbind option_bind].
  rewrite index_mod by apply He. done.
Qed.

(** [runFeedbackDelayLine] once the delay is known. *)
Lemma runFeedbackDelayLine_eq e ports lDelay :
  wf e -> delay_samples e (DL_DELAY_LENGTH ports) = Some lDelay ->
  runFeedbackDelayLine e ports =
    ('(out, buf) ← feedback_loop (m_pfBuffer e) (Word.sub (m_lBufferSize e) 1)
                     (m_lWritePointer e)
                     (Word.sub (Word.add (m_lWritePointer e) (m_lBufferSize e))
                               (feedback_delay lDelay))
                     (fsub fone (LIMIT_BETWEEN (DL_DRY_WET ports) fzero fone))
                     (LIMIT_BETWEEN (DL_DRY_WET ports) fzero fone)
                     (LIMIT_BETWEEN (DL_FEEDBACK ports) (fopp fone) fone)
                     0 (DL_INPUT ports);
     Some (out, mkDelayLine (m_fSampleRate e) (m_fMaximumDelay e) buf
                  (m_lBufferSize e)
                  ((m_lWritePointer e + Z.of_nat (length (DL_INPUT ports)))
                     mod m_lBufferSize e))).
Proof.
  intros He Hd. unfold runFeedbackDelayLine. rewrite Hd. cbn [mbind option_bind].
  rewrite index_mod by apply He. done.
Qed.

(** A well-formed instance with another buffer of the same length and
    the pointer a run leaves. *)
Lemma wf_after_run e (buf : list D) n :
  wf e -> length buf = length (m_pfBuffer e) ->
  wf (mkDelayLine (m_fSampleRate e) (m_fMaximumDelay e) buf (m_lBufferSize e)
        ((m_lWritePointer e + n) mod m_lBufferSize e)).
Proof.
  intros He Hlen. pose proof (wf_size_bounds e He) as Hc.
  split; cbn; try apply He.
  - rewrite Hlen. apply He.
  - pose proof (Z.mod_pos_bound (m_lWritePointer e + n) (m_lBufferSize e)).
    unfold Word.in_range. rewrite modulus_eq. lia.
Qed.

(** Every run of a well-formed instance returns: an output block as long
    as the input block and a well-formed instance of the same size, its
    pointer advanced by the block length modulo the size. *)
Lemma run_returns (t : DelayType) e ports :
  wf e ->
  exists out e',
    afRunFunctions t e ports = Some (out, e') /\
    wf e' /\
    length out = length (DL_INPUT ports) /\
    m_lBufferSize e' = m_lBufferSize e /\
    m_lWritePointer e' =
      (m_lWritePointer e + Z.of_nat (length (DL_INPUT ports))) mod m_lBufferSize e.
Proof.
  intros He.
  destruct (delay_samples_wf e (DL_DELAY_LENGTH ports) He) as (lDelay & Hd & _).
  destruct t; cbn [afRunFunctions].
  - rewrite (runSimpleDelayLine_eq e ports lDelay He Hd).
    edestruct (simple_loop_runs (m_lBufferSize e)) as (out & buf & -> & Hout & Hbuf);
      [apply He | apply He |].
    eexists _, _. split; [done |].
    split; [by apply wf_after_run |]. done.
  - rewrite (runFeedbackDelayLine_eq e ports lDelay He Hd).
    edestruct (feedback_loop_runs (m_lBufferSize e)) as (out & buf & -> & Hout & Hbuf);
      [apply He | apply He |].
    eexists _, _. split; [done |].
    split; [by apply wf_after_run |]. done.
Qed.

Lemma activate_wf e : wf e -> wf (activateDelayLine e).
Proof.
  intros He. pose proof (wf_size_bounds e He) as Hc.
  split; cbn; try apply He.
  - rewrite length_app, length_replicate, length_drop.
    pose proof (wf_alloc e He). lia.
  - unfold Word.in_range. rewrite modulus_eq. lia.
Qed.

(** Activation leaves a silent buffer. *)
Lemma activate_buffer e :
  wf e ->
  m_pfBuffer (activateDelayLine e) = replicate (Z.to_nat (m_lBufferSize e)) fzero.
Proof.
  intros He. cbn. rewrite drop_ge, app_nil_r; [done |].
  pose proof (wf_alloc e He). lia.
Qed.

End EngineFacts.

(** ** The sizing loop *)

Section SizingFacts.

Lemma shl1_pow2 k : 0 <= k < 63 -> Word.shl1 (2 ^ k) = 2 ^ (k + 1).
Proof.
  intros Hk. unfold Word.shl1, Word.wrap.
  rewrite Z.shiftl_mul_pow2, <- Z.pow_add_r by lia.
  apply Z.mod_small. split; [apply Z.pow_nonneg; lia |].
  unfold Word.modulus, Word.width. apply Z.pow_lt_mono_r; lia.
Qed.

Lemma shl1_top : Word.shl1 (2 ^ 63) = 0.
Proof. reflexivity. Qed.

(** From size [2 ^ k], with every smaller power of two below the
    minimum and fuel for the doublings that are left, the loop stops at
    the first power of two that reaches the minimum. *)
Lemma grow_buffer_stops lMin : lMin <= 2 ^ 63 -> forall fuel k,
  0 <= k <= 63 -> (k = 0 \/ 2 ^ (k - 1) < lMin) ->
  63 - k <= Z.of_nat fuel ->
  exists j, k <= j <= 63 /\
    grow_buffer fuel (2 ^ k) lMin = Some (2 ^ j) /\
    lMin <= 2 ^ j /\ (j = 0 \/ 2 ^ (j - 1) < lMin).
Proof.
  intros Hmin. induction fuel as [| fuel IH]; intros k Hk Hprev Hfuel.
  - assert (k = 63) as -> by lia. exists 63. cbn [grow_buffer].
    apply Z.ltb_ge in Hmin as Hb. rewrite Hb. repeat split; try done; lia.
  - cbn [grow_buffer]. destruct (2 ^ k <? lMin) eqn:Hlt.
    + apply Z.ltb_lt in Hlt.
      assert (k < 63) as Hk'.
      { destruct (Z.eq_dec k 63) as [-> |]; lia. }
      rewrite shl1_pow2 by lia.
      destruct (IH (k + 1)) as (j & Hj & Hrun & Hge & Hsmall); try lia.
      { right. by replace (k + 1 - 1) with k by lia. }
      exists j. repeat split; try done; lia.
    + apply Z.ltb_ge in Hlt. exists k. repeat split; try done; lia.
Qed.

(** Beyond [2 ^ 63] the loop never stops: the size becomes 0 and stays
    below the minimum. *)
Lemma grow_buffer_diverges lMin : 2 ^ 63 < lMin -> forall fuel lSize,
  (lSize = 0 \/ exists k, 0 <= k <= 63 /\ lSize = 2 ^ k) ->
  grow_buffer fuel lSize lMin = None.
Proof.
  intros Hmin. induction fuel as [| fuel IH]; intros lSize Hsize.
  - cbn [grow_buffer].
    assert ((lSize <? lMin) = true) as ->; [| done].
    apply Z.ltb_lt. destruct Hsize as [-> | (k & Hk & ->)]; [lia |].
    eapply Z.le_lt_trans; [| exact Hmin]. apply Z.pow_le_mono_r; lia.
  - cbn [grow_buffer].
    assert ((lSize <? lMin) = true) as ->.
    { apply Z.ltb_lt. destruct Hsize as [-> | (k & Hk & ->)]; [lia |].
      eapply Z.le_lt_trans; [| exact Hmin]. apply Z.pow_le_mono_r; lia. }
    apply IH. destruct Hsize as [-> | (k & Hk & ->)]; [by left |].
    destruct (Z.eq_dec k 63) as [-> | Hne]; [by left |].
    right. exists (k + 1). split; [lia |]. apply shl1_pow2. lia.
Qed.

(** Whenever the loop stops, it stops at a power of two that a word holds
    and that reaches the minimum. *)
Lemma grow_buffer_pow2 lMin : forall fuel k lSize,
  0 <= k <= 63 -> grow_buffer fuel (2 ^ k) lMin = Some lSize ->
  Word.pow2 lSize /\ lMin <= lSize.
Proof.
  induction fuel as [| fuel IH]; intros k lSize Hk Hrun; cbn [grow_buffer] in Hrun.
  - destruct (2 ^ k <? lMin) eqn:Hlt; [done |].
    apply Z.ltb_ge in Hlt. injection Hrun as <-.
    split; [| done]. exists k. unfold Word.width. split; [lia | done].
  - destruct (2 ^ k <? lMin) eqn:Hlt.
    + apply Z.ltb_lt in Hlt. destruct (Z.eq_dec k 63) as [-> | Hne].
      * rewrite shl1_top, (grow_buffer_diverges lMin Hlt) in Hrun by (by left).
        done.
      * rewrite shl1_pow2 in Hrun by lia. apply (IH (k + 1)); [lia | done].
    + apply Z.ltb_ge in Hlt. injection Hrun as <-.
      split; [| done]. exists k. unfold Word.width. split; [lia | done].
Qed.

Lemma smallest_pow2_above_of_loop n j :
  0 <= j -> n + 1 <= 2 ^ j -> (j = 0 \/ 2 ^ (j - 1) < n + 1) ->
  smallest_pow2_above n (2 ^ j).
Proof.
  intros Hj Hge Hsmall. split; [by exists j |]. split; [lia |].
  intros c' (k & Hk & ->) Hlt.
  apply Z.pow_le_mono_r; [lia |].
  destruct Hsmall as [-> | Hsmall]; [lia |].
  assert (2 ^ (j - 1) < 2 ^ k) as Hpow by lia.
  apply Z.pow_lt_mono_r_iff in Hpow; lia.
Qed.

Lemma smallest_pow2_above_unique n c c' :
  smallest_pow2_above n c -> smallest_pow2_above n c' -> c = c'.
Proof.
  intros (Hp & Hlt & Hmin) (Hp' & Hlt' & Hmin').
  pose proof (Hmin c' Hp' Hlt'). pose proof (Hmin' c Hp Hlt). lia.
Qed.

End SizingFacts.

(** ** Construction *)

Section ConstructionFacts.

Context {D : Type} `{SampleLaws D}.

Add Ring sample_ring_construction : sample_ring.

(** The constructor on a sample rate and a maximum delay whose product
    is below [2 ^ 63] samples. *)
Lemma DelayLine_new_returns (fuel : nat) (lSampleRate : Z) (fMaximumDelay : D)
    (fresh : nat -> D) (lStale : Z) :
  0 <= lSampleRate -> fle fzero fMaximumDelay ->
  trunc (fmul (of_ulong lSampleRate) fMaximumDelay) < 2 ^ 63 ->
  (64 <= fuel)%nat ->
  exists e,
    DelayLine_new fuel lSampleRate fMaximumDelay fresh lStale = Some e /\
    wf e /\
    smallest_pow2_above (trunc (fmul (of_ulong lSampleRate) fMaximumDelay))
                        (m_lBufferSize e).
Proof.
  intros Hrate Hmax Hfit Hfuel.
  set (n := trunc (fmul (of_ulong lSampleRate) fMaximumDelay)) in *.
  assert (0 <= n) as Hn
    by (apply trunc_nonneg, fmul_nonneg; [by apply of_ulong_nonneg | done]).
  assert (Word.add n 1 = n + 1) as Hmin.
  { unfold Word.add, Word.wrap. apply Z.mod_small. rewrite modulus_eq. lia. }
  destruct (grow_buffer_stops (n + 1) ltac:(lia) fuel 0) as (j & Hj & Hrun & Hge & Hsmall);
    [lia | by left | lia |].
  change (2 ^ 0) with 1 in Hrun.
  unfold DelayLine_new, to_ulong. fold n.
  apply Z.leb_le in Hn as Hn1. rewrite Hn1.
  assert (n < Word.modulus) as Hn2 by (rewrite modulus_eq; lia).
  apply Z.ltb_lt in Hn2. rewrite Hn2. cbn [andb mbind option_bind].
  rewrite Hmin, Hrun. cbn [mbind option_bind].
  eexists. split; [done |]. split.
  - assert (0 < 2 ^ j) by (apply Z.pow_pos_nonneg; lia).
    split; cbn.
    + exists j. unfold Word.width. split; [lia | done].
    + rewrite length_map, length_seq. lia.
    + apply Z.mod_pos_bound. by rewrite modulus_eq.
    + by apply of_ulong_nonneg.
    + done.
    + fold n. lia.
  - cbn. apply smallest_pow2_above_of_loop; [lia | done | done].
Qed.

End ConstructionFacts.

(** ** Slots of the circular buffer *)

Section SlotFacts.

Lemma mod_add_cong c a a' b : a mod c = a' mod c -> (a + b) mod c = (a' + b) mod c.
Proof.
  intros Heq. rewrite <- (Zplus_mod_idemp_l a), <- (Zplus_mod_idemp_l a'). by rewrite Heq.
Qed.

Lemma mod_sub_cong c a a' b : a mod c = a' mod c -> (a - b) mod c = (a' - b) mod c.
Proof.
  intros Heq. rewrite <- (Zminus_mod_idemp_l a), <- (Zminus_mod_idemp_l a'). by rewrite Heq.
Qed.

(** The read offset is the write offset moved back by the delay. *)
Lemma read_offset_mod c w lDelay :
  Word.pow2 c ->
  Word.sub (Word.add w c) lDelay mod c = (w - lDelay) mod c.
Proof.
  intros Hc. unfold Word.sub, Word.add. rewrite wrap_mod by done.
  rewrite (mod_sub_cong c (Word.wrap (w + c)) (w + c)) by (by apply wrap_mod).
  replace (w + c - lDelay) with (w - lDelay + 1 * c) by lia.
  apply Z.mod_add. pose proof (pow2_bounds c Hc). lia.
Qed.

Lemma next_index_mod c i w :
  Word.pow2 c -> (Word.add i 1 + w) mod c = (i + w + 1) mod c.
Proof.
  intros Hc. unfold Word.add.
  rewrite (mod_add_cong c (Word.wrap (i + 1)) (i + 1)) by (by apply wrap_mod).
  f_equal. lia.
Qed.

(** Two times less than a buffer size apart fall into different slots. *)
Lemma slots_differ c s t : 0 < c -> 0 < t - s < c -> s mod c <> t mod c.
Proof.
  intros Hc Hst Heq.
  pose proof (Z.div_mod s c ltac:(lia)). pose proof (Z.div_mod t c ltac:(lia)).
  assert (t - s = c * (t / c - s / c)) as Hd by lia.
  destruct (Z.le_gt_cases (t / c - s / c) 0); nia.
Qed.

Lemma to_nat_slot_inj c a b :
  0 < c -> Z.to_nat (a mod c) = Z.to_nat (b mod c) -> a mod c = b mod c.
Proof.
  intros Hc Heq.
  pose proof (Z.mod_pos_bound a c Hc). pose proof (Z.mod_pos_bound b c Hc). lia.
Qed.

End SlotFacts.

(** ** What the loops compute *)

Section LoopProperties.

Context {D : Type} `{SampleLaws D}.

Add Ring sample_ring_loops : sample_ring.

Implicit Types (buf past input : list D) (x v : D) (i w r c : Z).

(** With no wet signal the plain loop copies its input. *)
Lemma simple_loop_dry c w r input : forall buf i,
  Word.pow2 c -> Z.of_nat (length buf) = c ->
  exists buf',
    simple_loop buf (Word.sub c 1) w r (fsub fone fzero) fzero i input
      = Some (input, buf').
Proof.
  induction input as [| x rest IH]; intros buf i Hc Hlen.
  - by exists buf.
  - destruct (simple_loop_step c buf w r (fsub fone fzero) fzero i x rest Hc Hlen)
      as (v & _ & ->).
    destruct (IH (<[Z.to_nat ((i + w) mod c) := x]> buf) (Word.add i 1) Hc)
      as (buf' & ->); [by rewrite length_insert |].
    exists buf'. cbn. do 2 f_equal. f_equal. ring.
Qed.

(** When the read slot is the write slot, the plain loop reads back the
    input sample it has just stored. *)
Lemma simple_loop_same_slot c w r (fDry fWet : D) input : forall buf i,
  Word.pow2 c -> Z.of_nat (length buf) = c -> r mod c = w mod c ->
  exists buf',
    simple_loop buf (Word.sub c 1) w r fDry fWet i input
      = Some (map (fun x => fadd (fmul fDry x) (fmul fWet x)) input, buf').
Proof.
  induction input as [| x rest IH]; intros buf i Hc Hlen Hrw.
  - by exists buf.
  - destruct (simple_loop_step c buf w r fDry fWet i x rest Hc Hlen)
      as (v & Hv & ->).
    rewrite (Z.add_comm i r), (mod_add_cong c r w i Hrw), (Z.add_comm w i) in Hv.
    rewrite list_lookup_insert_eq in Hv
      by (pose proof (slot_in_range buf c (i + w) Hc Hlen); lia).
    injection Hv as <-.
    destruct (IH (<[Z.to_nat ((i + w) mod c) := x]> buf) (Word.add i 1) Hc)
      as (buf' & ->); [by rewrite length_insert | done |].
    by exists buf'.
Qed.

(** When the read slot is never the write slot, the feedback loop with
    feedback 0 is the plain loop: the order of load and store does not
    matter and the stored sample is the input sample. *)
Lemma feedback_loop_no_feedback c w r (fDry fWet : D) input : forall buf i,
  Word.pow2 c -> Z.of_nat (length buf) = c -> r mod c <> w mod c ->
  feedback_loop buf (Word.sub c 1) w r fDry fWet fzero i input
    = simple_loop buf (Word.sub c 1) w r fDry fWet i input.
Proof.
  induction input as [| x rest IH]; intros buf i Hc Hlen Hrw; [done |].
  pose proof (pow2_bounds c Hc) as Hcb.
  destruct (feedback_loop_step c buf w r fDry fWet fzero i x rest Hc Hlen)
    as (v & Hv & ->).
  destruct (simple_loop_step c buf w r fDry fWet i x rest Hc Hlen)
    as (v' & Hv' & ->).
  rewrite list_lookup_insert_ne in Hv'.
  - assert (v' = v) as -> by congruence.
    replace (fadd x (fmul v fzero)) with x by ring.
    rewrite IH; [done | done | by rewrite length_insert | done].
  - intros Heq. apply to_nat_slot_inj in Heq; [| lia]. apply Hrw.
    apply (mod_sub_cong c _ _ i) in Heq.
    by replace (i + w - i) with w in Heq by lia;
       replace (i + r - i) with r in Heq by lia.
Qed.

Lemma at_time_app_l past input s :
  s < Z.of_nat (length past) -> at_time (past ++ input) s = at_time past s.
Proof.
  intros Hs. unfold at_time. destruct (s <? 0) eqn:Hneg; [done |].
  apply Z.ltb_ge in Hneg. rewrite lookup_app_l by lia. done.
Qed.

Lemma at_time_last past x :
  at_time (past ++ [x]) (Z.of_nat (length past)) = x.
Proof.
  unfold at_time. assert ((Z.of_nat (length past) <? 0) = false) as ->
    by (apply Z.ltb_ge; lia).
  rewrite Nat2Z.id, list_lookup_middle by done. done.
Qed.

(** Storing the next sample of the stream at the slot of its time keeps
    the buffer a record of the last [c] samples. *)
Lemma holds_past_store c buf past x :
  Word.pow2 c -> Z.of_nat (length buf) = c ->
  holds_past c buf past ->
  holds_past c (<[Z.to_nat (Z.of_nat (length past) mod c) := x]> buf) (past ++ [x]).
Proof.
  intros Hc Hlen Hpast s. pose proof (pow2_bounds c Hc) as Hcb.
  rewrite length_app, Nat.add_1_r, Nat2Z.inj_succ. intros Hs.
  destruct (Z.eq_dec s (Z.of_nat (length past))) as [-> | Hne].
  - rewrite list_lookup_insert_eq
      by (pose proof (slot_in_range buf c (Z.of_nat (length past)) Hc Hlen); lia).
    by rewrite at_time_last.
  - rewrite list_lookup_insert_ne.
    + rewrite at_time_app_l by lia. apply Hpast. lia.
    + intros Heq. apply to_nat_slot_inj in Heq; [| lia].
      symmetry in Heq. revert Heq. apply slots_differ; lia.
Qed.

(** The plain loop on a buffer that records the past of a stream: its
    output is the echo of the stream, and the buffer records the stream
    with the block appended. *)
Lemma simple_loop_echo c w r lDelay (fDry fWet : D) input : forall past buf i,
  Word.pow2 c -> Z.of_nat (length buf) = c -> 0 <= lDelay < c ->
  (i + w) mod c = Z.of_nat (length past) mod c ->
  r mod c = (w - lDelay) mod c ->
  holds_past c buf past ->
  exists buf',
    simple_loop buf (Word.sub c 1) w r fDry fWet i input
      = Some (echo_stream fDry fWet lDelay past input, buf') /\
    length buf' = length buf /\
    holds_past c buf' (past ++ input).
Proof.
  induction input as [| x rest IH]; intros past buf i Hc Hlen Hd Hw Hr Hpast.
  - exists buf. by rewrite app_nil_r.
  - destruct (simple_loop_step c buf w r fDry fWet i x rest Hc Hlen)
      as (v & Hv & ->).
    rewrite Hw in Hv |- *.
    pose proof (holds_past_store c buf past x Hc Hlen Hpast) as Hpast'.
    assert ((i + r) mod c = (Z.of_nat (length past) - lDelay) mod c) as Hslot.
    { rewrite (Z.add_comm i r), (mod_add_cong c r (w - lDelay) i Hr).
      replace (w - lDelay + i) with (i + w - lDelay) by lia.
      by apply mod_sub_cong. }
    rewrite Hslot, Hpast' in Hv
      by (rewrite length_app, Nat.add_1_r, Nat2Z.inj_succ; lia).
    injection Hv as <-.
    destruct (IH (past ++ [x])
                 (<[Z.to_nat (Z.of_nat (length past) mod c) := x]> buf)
                 (Word.add i 1) Hc)
      as (buf' & -> & Hlen' & Hfinal); try done.
    + by rewrite length_insert.
    + rewrite next_index_mod, length_app, Nat.add_1_r, Nat2Z.inj_succ by done.
      by apply mod_add_cong.
    + exists buf'. rewrite <- app_assoc in Hfinal. cbn in Hfinal |- *.
      split; [done |]. split; [| done]. by rewrite Hlen', length_insert.
Qed.

End LoopProperties.

(** ** Streams cut into blocks *)

Section StreamFacts.

Context {D : Type} `{SampleLaws D}.

Add Ring sample_ring_streams : sample_ring.

Implicit Types (e : DelayLine D) (past input : list D).

Lemma echo_stream_app (fDry fWet : D) lDelay input input' : forall past,
  echo_stream fDry fWet lDelay past (input ++ input')
    = echo_stream fDry fWet lDelay past input
      ++ echo_stream fDry fWet lDelay (past ++ input) input'.
Proof.
  induction input as [| x rest IH]; intros past; cbn.
  - by rewrite app_nil_r.
  - rewrite IH, <- app_assoc. done.
Qed.

Lemma echo_stream_length (fDry fWet : D) lDelay input : forall past,
  length (echo_stream fDry fWet lDelay past input) = length input.
Proof. induction input as [| x rest IH]; intros past; cbn; [done | by rewrite IH]. Qed.

(** Sample [j] of the echo of a block. *)
Lemma echo_stream_lookup (fDry fWet : D) lDelay input : forall past (j : nat) x,
  0 <= lDelay -> input !! j = Some x ->
  echo_stream fDry fWet lDelay past input !! j
    = Some (fadd (fmul fDry x)
              (fmul fWet (at_time (past ++ input)
                            (Z.of_nat (length past) + Z.of_nat j - lDelay)))).
Proof.
  induction input as [| y rest IH]; intros past j x Hd Hj; [done |].
  destruct j as [| j]; cbn in Hj |- *.
  - injection Hj as ->. do 3 f_equal.
    rewrite (cons_middle x past rest), app_assoc, Z.add_0_r.
    symmetry. apply at_time_app_l. rewrite length_app. cbn. lia.
  - etrans; [apply (IH (past ++ [y]) j x Hd Hj) |].
    rewrite <- app_assoc. cbn.
    do 4 f_equal. rewrite length_app. cbn. lia.
Qed.

(** The plain delay on a stream cut into blocks, delay and dry/wet
    controls the same for every block: the outputs are the echo of the
    whole stream cut the same way. *)
Lemma run_blocks_echo (fDelay fWet : D) lDelay blocks : forall e past,
  wf e -> delay_samples e fDelay = Some lDelay ->
  m_lWritePointer e mod m_lBufferSize e
    = Z.of_nat (length past) mod m_lBufferSize e ->
  holds_past (m_lBufferSize e) (m_pfBuffer e) past ->
  exists outs e',
    run_blocks Echo e (echo_calls fDelay fWet blocks) = Some (outs, e') /\
    map length outs = map length blocks /\
    concat outs
      = echo_stream (fsub fone (LIMIT_BETWEEN fWet fzero fone))
          (LIMIT_BETWEEN fWet fzero fone) lDelay past (concat blocks).
Proof.
  induction blocks as [| block blocks IH]; intros e past He Hd Hw Hpast.
  - by exists [], e.
  - destruct (delay_samples_wf e fDelay He) as (lDelay' & Hd' & Hbound).
    assert (lDelay' = lDelay) as -> by congruence.
    cbn [echo_calls map run_blocks afRunFunctions].
    rewrite (runSimpleDelayLine_eq e (mkPorts fDelay fWet block fzero) lDelay He Hd).
    cbn [DL_INPUT DL_DRY_WET].
    destruct (simple_loop_echo (m_lBufferSize e) (m_lWritePointer e)
                (Word.sub (Word.add (m_lWritePointer e) (m_lBufferSize e)) lDelay)
                lDelay (fsub fone (LIMIT_BETWEEN fWet fzero fone))
                (LIMIT_BETWEEN fWet fzero fone) block past (m_pfBuffer e) 0)
      as (buf' & -> & Hlen & Hpast'); try done; try apply He.
    { apply read_offset_mod, He. }
    cbn [mbind option_bind].
    set (e1 := mkDelayLine _ _ buf' _ _).
    destruct (IH e1 (past ++ block)) as (outs & e' & Hrun & Hlens & Hout).
    + by apply wf_after_run.
    + exact Hd.
    + cbn. rewrite Z.mod_mod by (pose proof (wf_size_bounds e He); lia).
      rewrite length_app, Nat2Z.inj_add.
      by apply mod_add_cong.
    + exact Hpast'.
    + fold (echo_calls fDelay fWet blocks). rewrite Hrun. cbn [mbind option_bind].
      eexists _, _. split; [done |]. cbn [map concat].
      rewrite echo_stream_length, Hlens, Hout, echo_stream_app. done.
Qed.

(** The write pointer after a sequence of blocks, through either run
    function. *)
Lemma run_blocks_pointer (t : DelayType) calls : forall e,
  wf e -> 0 <= m_lWritePointer e < m_lBufferSize e ->
  exists outs e',
    run_blocks t e calls = Some (outs, e') /\
    wf e' /\
    m_lBufferSize e' = m_lBufferSize e /\
    m_lWritePointer e'
      = (m_lWritePointer e + total (block_sizes calls)) mod m_lBufferSize e.
Proof.
  induction calls as [| ports calls IH]; intros e He Hw.
  - exists [], e. cbn. rewrite Z.add_0_r, Z.mod_small by done. done.
  - destruct (run_returns t e ports He) as (out & e1 & Hrun & He1 & _ & Hsize & Hptr).
    pose proof (wf_size_bounds e He) as Hc.
    destruct (IH e1 He1) as (outs & e' & Hrun' & He' & Hsize' & Hptr').
    { rewrite Hptr, Hsize. apply Z.mod_pos_bound. lia. }
    cbn [run_blocks]. rewrite Hrun. cbn [mbind option_bind].
    rewrite Hrun'. cbn [mbind option_bind].
    eexists _, _. split; [done |]. split; [done |].
    split; [congruence |].
    rewrite Hptr', Hptr, Hsize. cbn [block_sizes map total foldr].
    rewrite Zplus_mod_idemp_l. f_equal. unfold total, block_sizes. lia.
Qed.

End StreamFacts.

(** ** The small instance is one the plugin reaches *)

Section DemoFacts.

Lemma line_constructed :
  activateDelayLine <$> DelayLine_new 64 8 1%Qc Demo.fresh Demo.lStale
    = Some Demo.line.
Proof. vm_compute. reflexivity. Qed.

Lemma line_wf : wf Demo.line.
Proof.
  destruct (DelayLine_new_returns 64 8 1%Qc Demo.fresh Demo.lStale)
    as (e & Hnew & He & _).
  - lia.
  - exact fle_zero_one.
  - vm_compute. reflexivity.
  - lia.
  - pose proof line_constructed as Hline. rewrite Hnew in Hline.
    assert (activateDelayLine e = Demo.line) as <- by (cbn in Hline; congruence).
    by apply activate_wf.
Qed.

Lemma primed_reached :
  snd <$> runSimpleDelayLine Demo.line
            (Demo.call 0%Qc 0%Qc 0%Qc (5 :: replicate 15 0)%Z)
    = Some Demo.primed.
Proof. vm_compute. reflexivity. Qed.

Lemma primed_wf : wf Demo.primed.
Proof.
  destruct (run_returns Echo Demo.line
              (Demo.call 0%Qc 0%Qc 0%Qc (5 :: replicate 15 0)%Z) line_wf)
    as (out & e & Hrun & He & _).
  pose proof primed_reached as Hp. cbn [afRunFunctions] in Hrun.
  rewrite Hrun in Hp.
  assert (e = Demo.primed) as <- by (cbn in Hp; congruence).
  exact He.
Qed.

End DemoFacts.

(** ** Buffer capacity *)

Section Capacity.

Context {D : Type} `{SampleLaws D}.

Add Ring sample_ring_capacity : sample_ring.

(** C7 (as amended).  For a positive sample rate and a positive maximum
    delay whose product, truncated, is below [2 ^ 63] samples, the
    constructor returns (64 iterations of its loop are enough) and the
    buffer size is the smallest power of two strictly greater than
    [floor (sampleRate * maximumDelaySeconds)]; for a sample rate of
    44100 and a maximum delay of 1 it is 65536. *)
Theorem buffer_capacity (fuel : nat) (lSampleRate : Z) (fMaximumDelay : D)
    (fresh : nat -> D) (lStale : Z) :
  0 < lSampleRate -> flt fzero fMaximumDelay = true ->
  trunc (fmul (of_ulong lSampleRate) fMaximumDelay) < 2 ^ 63 ->
  (64 <= fuel)%nat ->
  exists e,
    DelayLine_new fuel lSampleRate fMaximumDelay fresh lStale = Some e /\
    smallest_pow2_above (trunc (fmul (of_ulong lSampleRate) fMaximumDelay))
                        (m_lBufferSize e) /\
    (lSampleRate = 44100 -> fMaximumDelay = fone -> m_lBufferSize e = 65536).
Proof.
  intros Hrate Hmax Hfit Hfuel.
  destruct (DelayLine_new_returns fuel lSampleRate fMaximumDelay fresh lStale)
    as (e & Hnew & _ & Hsmall); [lia | by apply flt_fle | done | done |].
  exists e. split; [done |]. split; [done |].
  intros -> ->.
  replace (fmul (of_ulong 44100) fone) with (of_ulong 44100 : D) in Hsmall by ring.
  rewrite trunc_of_ulong in Hsmall.
  apply (smallest_pow2_above_unique 44100); [done |].
  apply (smallest_pow2_above_of_loop 44100 16); [lia | lia | right; lia].
Qed.

End Capacity.

Lemma buffer_capacity_witness :
  (0 < 44100)%Z /\ flt fzero 1%Qc = true /\
  (trunc (fmul (of_ulong 44100) 1%Qc) < 2 ^ 63)%Z /\ (64 <= 64)%nat /\
  exists e,
    DelayLine_new 64 44100 1%Qc Demo.fresh Demo.lStale = Some e /\
    smallest_pow2_above (trunc (fmul (of_ulong 44100) 1%Qc)) (m_lBufferSize e) /\
    (44100 = 44100 -> 1%Qc = fone -> m_lBufferSize e = 65536).
Proof.
  assert (0 < 44100)%Z as H1 by lia.
  assert (flt fzero 1%Qc = true) as H2 by reflexivity.
  assert (trunc (fmul (of_ulong 44100) 1%Qc) < 2 ^ 63)%Z as H3
    by (vm_compute; reflexivity).
  assert (64 <= 64)%nat as H4 by lia.
  repeat split; try assumption.
  exact (buffer_capacity 64 44100 1%Qc Demo.fresh Demo.lStale H1 H2 H3 H4).
Defined.

(** At a sample rate of [2 ^ 63] and a maximum delay of 1 the minimum
    size is [2 ^ 63 + 1], above every power of two a word holds: the
    sizing loop does not stop and no instance is constructed. *)
Lemma buffer_capacity_counterexample :
  (0 < 2 ^ 63)%Z /\ flt fzero 1%Qc = true /\
  ~ exists fuel e,
      DelayLine_new fuel (2 ^ 63) 1%Qc Demo.fresh Demo.lStale = Some e.
Proof.
  split; [lia |]. split; [reflexivity |].
  intros (fuel & e & Hnew). unfold DelayLine_new in Hnew.
  assert (to_ulong (fmul (of_ulong (2 ^ 63)) 1%Qc) = Some (2 ^ 63)) as Hfloor
    by (vm_compute; reflexivity).
  rewrite Hfloor in Hnew. cbn [mbind option_bind] in Hnew.
  rewrite (grow_buffer_diverges (Word.add (2 ^ 63) 1)) in Hnew.
  - discriminate.
  - vm_compute. reflexivity.
  - right. exists 0. split; [lia | reflexivity].
Qed.

(** ** The write pointer *)

Section WritePointer.

Context {D : Type} `{SampleLaws D}.

(** C8.  After activation and any sequence of blocks run through either
    run function, the write pointer is the sum of the block sizes modulo
    the buffer size, hence at least 0 and below the buffer size. *)
Theorem write_pointer_after_blocks (t : DelayType) (e : DelayLine D)
    (calls : list (Ports D)) :
  wf e ->
  exists outs e',
    run_blocks t (activateDelayLine e) calls = Some (outs, e') /\
    m_lBufferSize e' = m_lBufferSize e /\
    m_lWritePointer e' = total (block_sizes calls) mod m_lBufferSize e /\
    0 <= m_lWritePointer e' < m_lBufferSize e.
Proof.
  intros He. pose proof (wf_size_bounds e He) as Hc.
  destruct (run_blocks_pointer t calls (activateDelayLine e))
    as (outs & e' & Hrun & _ & Hsize & Hptr).
  - by apply activate_wf.
  - cbn. lia.
  - cbn in Hsize, Hptr. exists outs, e'.
    split; [done |]. split; [done |]. split; [done |].
    rewrite Hptr. apply Z.mod_pos_bound. lia.
Qed.

End WritePointer.

Lemma write_pointer_after_blocks_witness :
  wf Demo.primed /\
  exists outs e',
    run_blocks Feedback (activateDelayLine Demo.primed)
      [Demo.call 0%Qc 1%Qc 1%Qc [1; 2; 3]; Demo.call 1%Qc 0%Qc 0%Qc (replicate 20 4)]%Z
      = Some (outs, e') /\
    m_lBufferSize e' = m_lBufferSize Demo.primed /\
    m_lWritePointer e'
      = (total (block_sizes
           [Demo.call 0%Qc 1%Qc 1%Qc [1; 2; 3];
            Demo.call 1%Qc 0%Qc 0%Qc (replicate 20 4)]%Z)
         mod m_lBufferSize Demo.primed)%Z /\
    (0 <= m_lWritePointer e' < m_lBufferSize Demo.primed)%Z.
Proof.
  split; [exact primed_wf |].
  exact (write_pointer_after_blocks Feedback Demo.primed _ primed_wf).
Defined.

(** ** Saturation of the controls *)

Section Controls.

Context {D : Type} `{SampleLaws D}.

Lemma LIMIT_BETWEEN_saturated (x a b : D) :
  fle a b -> saturated x a b (LIMIT_BETWEEN x a b).
Proof.
  intros Hab. destruct (LIMIT_BETWEEN_range x a b Hab) as [Hlo Hhi].
  repeat split; try done.
  - apply LIMIT_BETWEEN_below.
  - by apply LIMIT_BETWEEN_above.
  - apply LIMIT_BETWEEN_inside.
Qed.

Lemma LIMIT_BETWEEN_idem (x a b : D) :
  fle a b -> LIMIT_BETWEEN (LIMIT_BETWEEN x a b) a b = LIMIT_BETWEEN x a b.
Proof.
  intros Hab. destruct (LIMIT_BETWEEN_range x a b Hab) as [Hlo Hhi].
  by apply LIMIT_BETWEEN_inside.
Qed.

(** C9.  Whatever the control values, a run returns, with an output block
    as long as the input block.  The values the run works with are the
    delay control saturated to the range from 0 to the maximum delay
    (converted to samples by truncation), the wet control saturated to
    the range from 0 to 1 and the feedback control saturated to the range
    from -1 to 1: the run returns what it returns with the saturated
    values as controls, and on a block of one sample [x] it puts out
    [(1 - wet) * x + wet * v], where [v] is the sample found the delay
    back (for the feedback delay a delay of 0 counts as 1), and stores
    [x], for the feedback delay [x + v * feedback]. *)
Theorem controls_saturated (t : DelayType) (e : DelayLine D) (ports : Ports D) :
  wf e ->
  let fDelay := LIMIT_BETWEEN (DL_DELAY_LENGTH ports) fzero (m_fMaximumDelay e) in
  let fWet := LIMIT_BETWEEN (DL_DRY_WET ports) fzero fone in
  let fFeedback := LIMIT_BETWEEN (DL_FEEDBACK ports) (fopp fone) fone in
  let lSamples := trunc (fmul fDelay (m_fSampleRate e)) in
  let lDelay := match t with Echo => lSamples | Feedback => feedback_delay lSamples end in
  let lSize := m_lBufferSize e in
  let slotW := Z.to_nat (m_lWritePointer e mod lSize) in
  let slotR := Z.to_nat ((m_lWritePointer e - lDelay) mod lSize) in
  saturated (DL_DELAY_LENGTH ports) fzero (m_fMaximumDelay e) fDelay /\
  saturated (DL_DRY_WET ports) fzero fone fWet /\
  saturated (DL_FEEDBACK ports) (fopp fone) fone fFeedback /\
  delay_samples e (DL_DELAY_LENGTH ports) = Some lSamples /\
  (exists out e',
     afRunFunctions t e ports = Some (out, e') /\
     length out = length (DL_INPUT ports) /\
     afRunFunctions t e (mkPorts fDelay fWet (DL_INPUT ports) fFeedback)
       = Some (out, e')) /\
  (forall x, DL_INPUT ports = [x] ->
     exists v,
       match t with
       | Echo => <[slotW := x]> (m_pfBuffer e)
       | Feedback => m_pfBuffer e
       end !! slotR = Some v /\
       afRunFunctions t e ports
         = Some ([fadd (fmul (fsub fone fWet) x) (fmul fWet v)],
                 mkDelayLine (m_fSampleRate e) (m_fMaximumDelay e)
                   (<[slotW := match t with
                               | Echo => x
                               | Feedback => fadd x (fmul v fFeedback)
                               end]> (m_pfBuffer e))
                   lSize ((m_lWritePointer e + 1) mod lSize))).
Proof.
  intros He fDelay fWet fFeedback lSamples lDelay lSize slotW slotR.
  assert (Word.pow2 lSize) as Hp by apply He.
  assert (delay_samples e (DL_DELAY_LENGTH ports) = Some lSamples) as Hd.
  { destruct (delay_samples_wf e (DL_DELAY_LENGTH ports) He) as (l & Hl & _).
    rewrite Hl. unfold delay_samples, to_ulong in Hl. subst lSamples fDelay.
    destruct (_ && _) in Hl; congruence. }
  split; [apply LIMIT_BETWEEN_saturated, He |].
  split; [apply LIMIT_BETWEEN_saturated, fle_zero_one |].
  split; [apply LIMIT_BETWEEN_saturated, fle_minus_one_one |].
  split; [exact Hd |]. split.
  - destruct (run_returns t e ports He) as (out & e' & Hrun & _ & Hlen & _).
    exists out, e'. split; [done |]. split; [done |]. rewrite <- Hrun.
    assert (delay_samples e fDelay = Some lSamples) as Hd'.
    { rewrite <- Hd. unfold delay_samples, fDelay.
      by rewrite LIMIT_BETWEEN_idem by apply He. }
    destruct t; cbn [afRunFunctions].
    + rewrite (runSimpleDelayLine_eq e ports lSamples He Hd),
              (runSimpleDelayLine_eq e (mkPorts fDelay fWet (DL_INPUT ports) fFeedback)
                 lSamples He Hd').
      cbn [DL_DRY_WET DL_INPUT]. unfold fWet.
      by rewrite LIMIT_BETWEEN_idem by apply fle_zero_one.
    + rewrite (runFeedbackDelayLine_eq e ports lSamples He Hd),
              (runFeedbackDelayLine_eq e (mkPorts fDelay fWet (DL_INPUT ports) fFeedback)
                 lSamples He Hd').
      cbn [DL_DRY_WET DL_INPUT DL_FEEDBACK]. unfold fWet, fFeedback.
      by rewrite !LIMIT_BETWEEN_idem by (apply fle_zero_one || apply fle_minus_one_one).
  - intros x Hx.
    subst slotR slotW lDelay lSamples fFeedback fWet fDelay lSize.
    set (lSize := m_lBufferSize e) in *.
    set (fWet := LIMIT_BETWEEN (DL_DRY_WET ports) fzero fone) in *.
    set (fFeedback := LIMIT_BETWEEN (DL_FEEDBACK ports) (fopp fone) fone) in *.
    set (lSamples := trunc _) in *.
    assert (forall l, (0 + Word.sub (Word.add (m_lWritePointer e) lSize) l) mod lSize
                      = (m_lWritePointer e - l) mod lSize) as Hread.
    { intros l. rewrite Z.add_0_l. by apply read_offset_mod. }
    destruct t; cbn [afRunFunctions].
    + rewrite (runSimpleDelayLine_eq e ports lSamples He Hd), Hx.
      fold lSize fWet.
      destruct (simple_loop_step lSize (m_pfBuffer e) (m_lWritePointer e)
                  (Word.sub (Word.add (m_lWritePointer e) lSize) lSamples)
                  (fsub fone fWet) fWet 0 x [] Hp (wf_alloc e He))
        as (v & Hv & ->).
      rewrite Hread, Z.add_0_l in Hv. exists v. split; [exact Hv |].
      cbn. by rewrite Z.add_0_l.
    + rewrite (runFeedbackDelayLine_eq e ports lSamples He Hd), Hx.
      fold lSize fWet fFeedback.
      destruct (feedback_loop_step lSize (m_pfBuffer e) (m_lWritePointer e)
                  (Word.sub (Word.add (m_lWritePointer e) lSize) (feedback_delay lSamples))
                  (fsub fone fWet) fWet fFeedback 0 x [] Hp (wf_alloc e He))
        as (v & Hv & ->).
      rewrite Hread in Hv. exists v. split; [exact Hv |].
      cbn. by rewrite Z.add_0_l.
Qed.

End Controls.

Lemma controls_saturated_witness :
  wf Demo.primed /\
  let ports := Demo.call (frac 7 2) (frac 5 4) (frac (-5) 1) [2]%Z in
  let fDelay := LIMIT_BETWEEN (frac 7 2) fzero (m_fMaximumDelay Demo.primed) in
  let fWet := LIMIT_BETWEEN (frac 5 4) fzero fone in
  let fFeedback := LIMIT_BETWEEN (frac (-5) 1) (fopp fone) fone in
  let lSamples := trunc (fmul fDelay (m_fSampleRate Demo.primed)) in
  let lDelay := feedback_delay lSamples in
  let lSize := m_lBufferSize Demo.primed in
  let slotW := Z.to_nat (m_lWritePointer Demo.primed mod lSize) in
  let slotR := Z.to_nat ((m_lWritePointer Demo.primed - lDelay) mod lSize) in
  saturated (frac 7 2) fzero (m_fMaximumDelay Demo.primed) fDelay /\
  saturated (frac 5 4) fzero fone fWet /\
  saturated (frac (-5) 1) (fopp fone) fone fFeedback /\
  delay_samples Demo.primed (frac 7 2) = Some lSamples /\
  (exists out e',
     afRunFunctions Feedback Demo.primed ports = Some (out, e') /\
     length out = length (DL_INPUT ports) /\
     afRunFunctions Feedback Demo.primed (mkPorts fDelay fWet (DL_INPUT ports) fFeedback)
       = Some (out, e')) /\
  (forall x, DL_INPUT ports = [x] ->
     exists v,
       m_pfBuffer Demo.primed !! slotR = Some v /\
       afRunFunctions Feedback Demo.primed ports
         = Some ([fadd (fmul (fsub fone fWet) x) (fmul fWet v)],
                 mkDelayLine (m_fSampleRate Demo.primed) (m_fMaximumDelay Demo.primed)
                   (<[slotW := fadd x (fmul v fFeedback)]> (m_pfBuffer Demo.primed))
                   lSize ((m_lWritePointer Demo.primed + 1) mod lSize)%Z)).
Proof.
  split; [exact primed_wf |].
  exact (controls_saturated Feedback Demo.primed
           (Demo.call (frac 7 2) (frac 5 4) (frac (-5) 1) [2]%Z) primed_wf).
Defined.

(** ** Buffer accesses *)

Section Bounds.

Context {D : Type} `{SampleOps D}.

Lemma buffer_access_outside (buf : list D) (i : Z) (v : D) :
  Z.of_nat (length buf) <= i ->
  buffer_load buf i = None /\ buffer_store buf i v = None.
Proof.
  intros Hi. unfold buffer_load, buffer_store. split.
  - destruct (0 <=? i); [| done]. apply lookup_ge_None. lia.
  - apply Z.ltb_ge in Hi as ->. by rewrite andb_false_r.
Qed.

(** Every instance the constructor returns has a buffer whose size is a
    power of two, the length of the allocation. *)
Lemma DelayLine_new_pow2 (fuel : nat) (lSampleRate : Z) (fMaximumDelay : D)
    (fresh : nat -> D) (lStale : Z) (e : DelayLine D) :
  DelayLine_new fuel lSampleRate fMaximumDelay fresh lStale = Some e ->
  Word.pow2 (m_lBufferSize e) /\
  Z.of_nat (length (m_pfBuffer e)) = m_lBufferSize e.
Proof.
  unfold DelayLine_new. intros Hnew.
  destruct (to_ulong _) as [lFloor |]; [| done]. cbn [mbind option_bind] in Hnew.
  destruct (grow_buffer fuel 1 (Word.add lFloor 1)) as [lSize |] eqn:Hrun; [| done].
  cbn [mbind option_bind] in Hnew. injection Hnew as <-. cbn.
  destruct (grow_buffer_pow2 (Word.add lFloor 1) fuel 0 lSize) as [Hp _];
    [lia | exact Hrun |].
  split; [done |]. rewrite length_map, length_seq.
  pose proof (pow2_bounds lSize Hp). lia.
Qed.

(** C10.  The buffer size of every instance the constructor returns is a
    power of two; hence every index [(base + i) & (size - 1)] is at least
    0 and below the size, and both loops, whose loads and stores are
    checked against the allocation, run to the end on every buffer of
    that size, for every block, write offset, read offset and control
    values. *)
Theorem buffer_accesses_in_bounds (fuel : nat) (lSampleRate : Z)
    (fMaximumDelay : D) (fresh : nat -> D) (lStale : Z) (e : DelayLine D) :
  DelayLine_new fuel lSampleRate fMaximumDelay fresh lStale = Some e ->
  let c := m_lBufferSize e in
  Word.pow2 c /\ Z.of_nat (length (m_pfBuffer e)) = c /\
  (forall lBase lSampleIndex,
      0 <= Z.land (Word.add lSampleIndex lBase) (Word.sub c 1) < c) /\
  (forall buf w r fDry fWet i input,
      Z.of_nat (length buf) = c ->
      exists out buf',
        simple_loop buf (Word.sub c 1) w r fDry fWet i input = Some (out, buf') /\
        length buf' = length buf) /\
  (forall buf w r fDry fWet fFeedback i input,
      Z.of_nat (length buf) = c ->
      exists out buf',
        feedback_loop buf (Word.sub c 1) w r fDry fWet fFeedback i input
          = Some (out, buf') /\
        length buf' = length buf).
Proof.
  intros Hnew c.
  destruct (DelayLine_new_pow2 _ _ _ _ _ _ Hnew) as [Hc Halloc].
  split; [done |]. split; [done |]. split; [| split].
  - intros lBase lSampleIndex. by apply index_range.
  - intros buf w r fDry fWet i input Hlen.
    destruct (simple_loop_runs c w r fDry fWet input buf i Hc Hlen)
      as (out & buf' & Hrun & _ & Hbuf). eauto.
  - intros buf w r fDry fWet fFeedback i input Hlen.
    destruct (feedback_loop_runs c w r fDry fWet fFeedback input buf i Hc Hlen)
      as (out & buf' & Hrun & _ & Hbuf). eauto.
Qed.

End Bounds.

Lemma buffer_accesses_in_bounds_witness :
  DelayLine_new 64 8 1%Qc Demo.fresh Demo.lStale = Some Demo.raw /\
  Word.pow2 16 /\ Z.of_nat (length (m_pfBuffer Demo.raw)) = 16%Z /\
  (forall lBase lSampleIndex,
      0 <= Z.land (Word.add lSampleIndex lBase) (Word.sub 16 1) < 16)%Z /\
  (forall (buf : list Qc) w r fDry fWet i input,
      Z.of_nat (length buf) = 16%Z ->
      exists out buf',
        simple_loop buf (Word.sub 16 1) w r fDry fWet i input = Some (out, buf') /\
        length buf' = length buf) /\
  (forall (buf : list Qc) w r fDry fWet fFeedback i input,
      Z.of_nat (length buf) = 16%Z ->
      exists out buf',
        feedback_loop buf (Word.sub 16 1) w r fDry fWet fFeedback i input
          = Some (out, buf') /\
        length buf' = length buf).
Proof.
  assert (DelayLine_new 64 8 1%Qc Demo.fresh Demo.lStale = Some Demo.raw) as Hnew
    by (vm_compute; reflexivity).
  split; [exact Hnew |].
  exact (buffer_accesses_in_bounds 64 8 1%Qc Demo.fresh Demo.lStale Demo.raw Hnew).
Defined.

(** ** The plain delay at zero delay and at zero wet level *)

Section PlainDelay.

Context {D : Type} `{SampleLaws D}.

Add Ring sample_ring_plain : sample_ring.

Implicit Types (e : DelayLine D) (ports : Ports D).

Lemma delay_samples_zero e : wf e -> delay_samples e fzero = Some 0.
Proof.
  intros He. unfold delay_samples.
  rewrite LIMIT_BETWEEN_inside by (apply fle_refl || apply He).
  replace (fmul fzero (m_fSampleRate e)) with (fzero : D) by ring.
  unfold to_ulong. by rewrite trunc_zero.
Qed.

(** C2 (as amended).  In the loop of the plain delay the input sample of
    index [i] is stored before the delayed sample of index [i] is
    loaded: when the delay is 0 samples, the output of index [i] is
    computed from the input sample just stored,
    [dry * input[i] + wet * input[i]], not from the value the slot held
    before. *)
Theorem store_before_load e ports :
  wf e -> delay_samples e (DL_DELAY_LENGTH ports) = Some 0 ->
  let fWet := LIMIT_BETWEEN (DL_DRY_WET ports) fzero fone in
  let fDry := fsub fone fWet in
  exists e',
    runSimpleDelayLine e ports
      = Some (map (fun x => fadd (fmul fDry x) (fmul fWet x)) (DL_INPUT ports), e').
Proof.
  intros He Hd fWet fDry. rewrite (runSimpleDelayLine_eq e ports 0 He Hd).
  fold fWet. fold fDry.
  destruct (simple_loop_same_slot (m_lBufferSize e) (m_lWritePointer e)
              (Word.sub (Word.add (m_lWritePointer e) (m_lBufferSize e)) 0)
              fDry fWet (DL_INPUT ports) (m_pfBuffer e) 0)
    as (buf' & ->); [apply He | apply He | |].
  - rewrite read_offset_mod by apply He. f_equal. lia.
  - cbn. eauto.
Qed.

(** C3.  With the wet control at 1 and the delay control at 0, the
    output block of the plain delay is the input block, whatever the
    block and the state of the instance. *)
Theorem identity_at_zero_delay e ports :
  wf e -> DL_DRY_WET ports = fone -> DL_DELAY_LENGTH ports = fzero ->
  exists e', runSimpleDelayLine e ports = Some (DL_INPUT ports, e').
Proof.
  intros He Hwet Hdelay.
  assert (delay_samples e (DL_DELAY_LENGTH ports) = Some 0) as Hd
    by (rewrite Hdelay; by apply delay_samples_zero).
  rewrite (runSimpleDelayLine_eq e ports 0 He Hd), Hwet.
  rewrite LIMIT_BETWEEN_inside by (apply fle_zero_one || apply fle_refl).
  destruct (simple_loop_same_slot (m_lBufferSize e) (m_lWritePointer e)
              (Word.sub (Word.add (m_lWritePointer e) (m_lBufferSize e)) 0)
              (fsub fone fone) fone (DL_INPUT ports) (m_pfBuffer e) 0)
    as (buf' & ->); [apply He | apply He | |].
  - rewrite read_offset_mod by apply He. f_equal. lia.
  - cbn. eexists. do 2 f_equal.
    rewrite <- (map_id (DL_INPUT ports)) at 2.
    apply map_ext. intros x. ring.
Qed.

(** C4.  With the wet control at 0 the output block of the plain delay
    is the input block, whatever the delay control, the buffer and the
    block size. *)
Theorem dry_output_is_input e ports :
  wf e -> DL_DRY_WET ports = fzero ->
  exists e', runSimpleDelayLine e ports = Some (DL_INPUT ports, e').
Proof.
  intros He Hwet.
  destruct (delay_samples_wf e (DL_DELAY_LENGTH ports) He) as (lDelay & Hd & _).
  rewrite (runSimpleDelayLine_eq e ports lDelay He Hd), Hwet.
  rewrite LIMIT_BETWEEN_inside by (apply fle_zero_one || apply fle_refl).
  edestruct (simple_loop_dry (m_lBufferSize e)) as (buf' & ->);
    [apply He | apply He |].
  cbn. eauto.
Qed.

End PlainDelay.

Lemma store_before_load_witness :
  wf Demo.primed /\
  delay_samples Demo.primed (frac 1 9) = Some 0%Z /\
  exists e',
    runSimpleDelayLine Demo.primed (Demo.call (frac 1 9) (frac 1 4) 0%Qc [1; 2]%Z)
      = Some (map (fun x => fadd (fmul (fsub fone (LIMIT_BETWEEN (frac 1 4) fzero fone)) x)
                                 (fmul (LIMIT_BETWEEN (frac 1 4) fzero fone) x))
                  (samples [1; 2]%Z), e').
Proof.
  split; [exact primed_wf |]. split; [reflexivity |].
  exact (store_before_load Demo.primed
           (Demo.call (frac 1 9) (frac 1 4) 0%Qc [1; 2]%Z) primed_wf eq_refl).
Defined.

(** The slot at the write pointer of [Demo.primed] holds 5.  At a delay
    of 0 and a wet level of 1 the run on the block [[1]] puts out 1, the
    sample just stored; loading before storing would put out 5. *)
Lemma store_before_load_counterexample :
  delay_samples Demo.primed 0%Qc = Some 0%Z /\
  (fun x : Qc => this x) <$> (m_pfBuffer Demo.primed !! 0%nat) = Some 5%Q /\
  readout ∘ fst <$> runSimpleDelayLine Demo.primed (Demo.call 0%Qc 1%Qc 0%Qc [1]%Z)
    = Some [1%Q] /\
  readout ∘ fst <$> simple_loop_read_first (m_pfBuffer Demo.primed)
                      (Word.sub 16 1) 0 (Word.sub (Word.add 0 16) 0)
                      (fsub fone 1%Qc) 1%Qc 0 (samples [1]%Z)
    = Some [5%Q].
Proof. vm_compute. repeat split. Qed.

Lemma identity_at_zero_delay_witness :
  wf Demo.primed /\
  DL_DRY_WET (Demo.call 0%Qc 1%Qc 0%Qc [3; 1; 4]%Z) = fone /\
  DL_DELAY_LENGTH (Demo.call 0%Qc 1%Qc 0%Qc [3; 1; 4]%Z) = fzero /\
  exists e',
    runSimpleDelayLine Demo.primed (Demo.call 0%Qc 1%Qc 0%Qc [3; 1; 4]%Z)
      = Some (samples [3; 1; 4]%Z, e').
Proof.
  split; [exact primed_wf |]. split; [reflexivity |]. split; [reflexivity |].
  exact (identity_at_zero_delay Demo.primed (Demo.call 0%Qc 1%Qc 0%Qc [3; 1; 4]%Z)
           primed_wf eq_refl eq_refl).
Defined.

Lemma dry_output_is_input_witness :
  wf Demo.primed /\
  DL_DRY_WET (Demo.call (frac 1 2) 0%Qc 0%Qc [3; 1; 4]%Z) = fzero /\
  exists e',
    runSimpleDelayLine Demo.primed (Demo.call (frac 1 2) 0%Qc 0%Qc [3; 1; 4]%Z)
      = Some (samples [3; 1; 4]%Z, e').
Proof.
  split; [exact primed_wf |]. split; [reflexivity |].
  exact (dry_output_is_input Demo.primed (Demo.call (frac 1 2) 0%Qc 0%Qc [3; 1; 4]%Z)
           primed_wf eq_refl).
Defined.

(** ** The feedback delay *)

Section FeedbackDelay.

Context {D : Type} `{SampleLaws D}.

Add Ring sample_ring_feedback : sample_ring.

Implicit Types (e : DelayLine D) (ports : Ports D).

(** C5 (as amended).  When the delay control converts to at least one
    sample, the feedback delay with the feedback control at 0 returns
    the output block and the instance (buffer and write pointer) that
    the plain delay returns for the same wet and delay controls. *)
Theorem feedback_zero_is_plain e ports lDelay :
  wf e -> DL_FEEDBACK ports = fzero ->
  delay_samples e (DL_DELAY_LENGTH ports) = Some lDelay -> 1 <= lDelay ->
  exists out e',
    runSimpleDelayLine e ports = Some (out, e') /\
    runFeedbackDelayLine e ports = Some (out, e').
Proof.
  intros He Hfb Hd Hpos. pose proof (wf_size_bounds e He) as Hc.
  destruct (delay_samples_wf e (DL_DELAY_LENGTH ports) He) as (lDelay' & Hd' & Hbound).
  assert (lDelay' = lDelay) as -> by congruence.
  destruct (run_returns Echo e ports He) as (out & e' & Hrun & _).
  cbn [afRunFunctions] in Hrun. exists out, e'. split; [done |].
  rewrite <- Hrun.
  rewrite (runFeedbackDelayLine_eq e ports lDelay He Hd),
          (runSimpleDelayLine_eq e ports lDelay He Hd).
  unfold feedback_delay. assert ((lDelay =? 0) = false) as -> by (apply Z.eqb_neq; lia).
  rewrite Hfb, (LIMIT_BETWEEN_inside fzero)
    by (apply fle_minus_one_zero || apply fle_zero_one).
  rewrite feedback_loop_no_feedback; [done | apply He | apply He |].
  rewrite read_offset_mod by apply He.
  apply slots_differ; lia.
Qed.

(** C6.  When the delay control converts to 0 samples, the feedback
    delay runs its loop with the read offset one sample behind the write
    offset, and it returns the output block and the instance it returns
    for a delay control that converts to 1 sample, the block and the wet
    and feedback controls being the same. *)
Theorem zero_delay_is_one_sample e ports ports' :
  wf e ->
  delay_samples e (DL_DELAY_LENGTH ports) = Some 0 ->
  delay_samples e (DL_DELAY_LENGTH ports') = Some 1 ->
  DL_DRY_WET ports' = DL_DRY_WET ports ->
  DL_INPUT ports' = DL_INPUT ports ->
  DL_FEEDBACK ports' = DL_FEEDBACK ports ->
  exists out e',
    runFeedbackDelayLine e ports = Some (out, e') /\
    runFeedbackDelayLine e ports' = Some (out, e') /\
    exists buf',
      feedback_loop (m_pfBuffer e) (Word.sub (m_lBufferSize e) 1)
        (m_lWritePointer e)
        (Word.sub (Word.add (m_lWritePointer e) (m_lBufferSize e)) 1)
        (fsub fone (LIMIT_BETWEEN (DL_DRY_WET ports) fzero fone))
        (LIMIT_BETWEEN (DL_DRY_WET ports) fzero fone)
        (LIMIT_BETWEEN (DL_FEEDBACK ports) (fopp fone) fone)
        0 (DL_INPUT ports)
      = Some (out, buf') /\ m_pfBuffer e' = buf'.
Proof.
  intros He Hd Hd' Hwet Hin Hfb.
  destruct (run_returns Feedback e ports He) as (out & e' & Hrun & _).
  cbn [afRunFunctions] in Hrun. exists out, e'. split; [done |]. split.
  - rewrite <- Hrun.
    rewrite (runFeedbackDelayLine_eq e ports 0 He Hd),
            (runFeedbackDelayLine_eq e ports' 1 He Hd').
    by rewrite Hwet, Hin, Hfb.
  - rewrite (runFeedbackDelayLine_eq e ports 0 He Hd) in Hrun.
    change (feedback_delay 0) with 1 in Hrun.
    destruct (feedback_loop _ _ _ _ _ _ _ _ _) as [[out1 buf1] |]; [| done].
    cbn in Hrun. exists buf1. injection Hrun as <- <-. done.
Qed.

End FeedbackDelay.

Lemma feedback_zero_is_plain_witness :
  wf Demo.primed /\
  DL_FEEDBACK (Demo.call (frac 1 4) (frac 1 2) 0%Qc [3; 1; 4]%Z) = fzero /\
  delay_samples Demo.primed (frac 1 4) = Some 2%Z /\ (1 <= 2)%Z /\
  exists out e',
    runSimpleDelayLine Demo.primed (Demo.call (frac 1 4) (frac 1 2) 0%Qc [3; 1; 4]%Z)
      = Some (out, e') /\
    runFeedbackDelayLine Demo.primed (Demo.call (frac 1 4) (frac 1 2) 0%Qc [3; 1; 4]%Z)
      = Some (out, e').
Proof.
  split; [exact primed_wf |]. split; [reflexivity |]. split; [reflexivity |].
  split; [lia |].
  apply (feedback_zero_is_plain Demo.primed
           (Demo.call (frac 1 4) (frac 1 2) 0%Qc [3; 1; 4]%Z) 2 primed_wf eq_refl eq_refl).
  lia.
Defined.

(** On the activated [Demo.line], with the delay control at 0, the wet
    control at 1 and the feedback control at 0, the block [[1]] comes out
    of the plain delay as [[1]] and of the feedback delay as [[0]]. *)
Lemma feedback_zero_is_plain_counterexample :
  readout ∘ fst <$> runSimpleDelayLine Demo.line (Demo.call 0%Qc 1%Qc 0%Qc [1]%Z)
    = Some [1%Q] /\
  readout ∘ fst <$> runFeedbackDelayLine Demo.line (Demo.call 0%Qc 1%Qc 0%Qc [1]%Z)
    = Some [0%Q].
Proof. vm_compute. split; reflexivity. Qed.

Lemma zero_delay_is_one_sample_witness :
  wf Demo.primed /\
  delay_samples Demo.primed 0%Qc = Some 0%Z /\
  delay_samples Demo.primed (frac 1 8) = Some 1%Z /\
  exists out e',
    runFeedbackDelayLine Demo.primed (Demo.call 0%Qc (frac 1 2) (frac 1 2) [3; 1; 4]%Z)
      = Some (out, e') /\
    runFeedbackDelayLine Demo.primed (Demo.call (frac 1 8) (frac 1 2) (frac 1 2) [3; 1; 4]%Z)
      = Some (out, e') /\
    exists buf',
      feedback_loop (m_pfBuffer Demo.primed) (Word.sub 16 1) 0
        (Word.sub (Word.add 0 16) 1)
        (fsub fone (LIMIT_BETWEEN (frac 1 2) fzero fone))
        (LIMIT_BETWEEN (frac 1 2) fzero fone)
        (LIMIT_BETWEEN (frac 1 2) (fopp fone) fone)
        0 (samples [3; 1; 4]%Z)
      = Some (out, buf') /\ m_pfBuffer e' = buf'.
Proof.
  split; [exact primed_wf |]. split; [reflexivity |]. split; [reflexivity |].
  exact (zero_delay_is_one_sample Demo.primed
           (Demo.call 0%Qc (frac 1 2) (frac 1 2) [3; 1; 4]%Z)
           (Demo.call (frac 1 8) (frac 1 2) (frac 1 2) [3; 1; 4]%Z)
           primed_wf eq_refl eq_refl eq_refl eq_refl eq_refl).
Defined.

(** ** Impulse response of the plain delay *)

Section Impulse.

Context {D : Type} `{SampleLaws D}.

Add Ring sample_ring_impulse : sample_ring.

Implicit Types (e : DelayLine D).

Lemma impulse_length (p q : nat) : length (impulse p q : list D) = (p + 1 + q)%nat.
Proof. unfold impulse. rewrite length_app, length_replicate. cbn. rewrite length_replicate. lia. Qed.

(** An impulse is 1 at its own time and 0 at every other time. *)
Lemma at_time_impulse (p q : nat) (s : Z) :
  at_time (impulse p q) s = if decide (s = Z.of_nat p) then fone else (fzero : D).
Proof.
  unfold at_time, impulse. destruct (s <? 0) eqn:Hneg.
  - apply Z.ltb_lt in Hneg. destruct (decide _); [lia | done].
  - apply Z.ltb_ge in Hneg.
    destruct (decide (s = Z.of_nat p)) as [-> | Hne].
    + rewrite Nat2Z.id, list_lookup_middle by (by rewrite length_replicate). done.
    + destruct (Z.lt_ge_cases s (Z.of_nat p)) as [Hlt | Hge].
      * rewrite lookup_app_l by (rewrite length_replicate; lia).
        rewrite lookup_replicate_2 by lia. done.
      * rewrite lookup_app_r by (rewrite length_replicate; lia).
        rewrite length_replicate.
        destruct (Z.to_nat s - p)%nat as [| m] eqn:Hm; [lia |]. cbn.
        destruct (replicate q fzero !! m) as [v |] eqn:Hv; [| done].
        apply lookup_replicate in Hv as [-> _]. done.
Qed.

(** An activated buffer records the silence before the stream. *)
Lemma holds_past_activated e :
  wf e ->
  holds_past (m_lBufferSize e) (m_pfBuffer (activateDelayLine e)) [].
Proof.
  intros He s Hs. pose proof (wf_size_bounds e He) as Hc. cbn in Hs.
  rewrite activate_buffer by done.
  pose proof (Z.mod_pos_bound s (m_lBufferSize e) ltac:(lia)).
  rewrite lookup_replicate_2 by lia.
  unfold at_time. assert ((s <? 0) = true) as -> by (apply Z.ltb_lt; lia). done.
Qed.

(** C1 (as amended).  From an activated instance, the plain delay with the
    wet control at 1 and the delay control at [d], run on an impulse cut
    into blocks in any way, returns blocks of the same sizes whose
    samples are 1 at offset
    [trunc (LIMIT_BETWEEN d 0 maximumDelay * sampleRate)] from the
    impulse (when the stream reaches that far) and 0 everywhere else. *)
Theorem impulse_response e (fDelay : D) (blocks : list (list D)) (p q : nat) :
  wf e -> concat blocks = impulse p q ->
  let lDelay :=
    trunc (fmul (LIMIT_BETWEEN fDelay fzero (m_fMaximumDelay e)) (m_fSampleRate e)) in
  exists outs e',
    run_blocks Echo (activateDelayLine e) (echo_calls fDelay fone blocks)
      = Some (outs, e') /\
    map length outs = map length blocks /\
    forall j : nat, (j < p + 1 + q)%nat ->
      concat outs !! j
        = Some (if decide (Z.of_nat j = Z.of_nat p + lDelay) then fone else fzero).
Proof.
  intros He Hblocks lDelay.
  pose proof (activate_wf e He) as Ha.
  destruct (delay_samples_wf (activateDelayLine e) fDelay Ha) as (l & Hd & Hl).
  assert (l = lDelay) as ->.
  { unfold delay_samples, to_ulong in Hd. cbn in Hd.
    destruct (_ && _) in Hd; [| done]. by injection Hd as <-. }
  destruct (run_blocks_echo fDelay fone lDelay blocks (activateDelayLine e) [])
    as (outs & e' & Hrun & Hlens & Hout); try done.
  { exact (holds_past_activated e He). }
  exists outs, e'. split; [done |]. split; [done |].
  intros j Hj. rewrite Hout, Hblocks.
  destruct (lookup_lt_is_Some_2 (impulse p q : list D) j) as [x Hx];
    [by rewrite impulse_length |].
  rewrite (echo_stream_lookup _ _ lDelay (impulse p q) [] j x) by (done || lia).
  rewrite LIMIT_BETWEEN_inside by (apply fle_zero_one || apply fle_refl).
  cbn [app length]. rewrite at_time_impulse. f_equal.
  destruct (decide (Z.of_nat 0 + Z.of_nat j - lDelay = Z.of_nat p)),
           (decide (Z.of_nat j = Z.of_nat p + lDelay)); try lia; ring.
Qed.

End Impulse.

Lemma impulse_response_witness :
  wf Demo.primed /\
  concat [samples [0; 1]%Z; samples [0; 0]%Z] = impulse 1 2 /\
  exists outs e',
    run_blocks Echo (activateDelayLine Demo.primed)
      (echo_calls (frac 3 16) fone [samples [0; 1]%Z; samples [0; 0]%Z])
      = Some (outs, e') /\
    map length outs = map length [samples [0; 1]%Z; samples [0; 0]%Z] /\
    forall j : nat, (j < 1 + 1 + 2)%nat ->
      concat outs !! j
        = Some (if decide (Z.of_nat j
                           = (Z.of_nat 1
                              + trunc (fmul (LIMIT_BETWEEN (frac 3 16) fzero 1%Qc)
                                            (Q2Qc (inject_Z 8))))%Z)
                then fone else fzero).
Proof.
  split; [exact primed_wf |]. split; [reflexivity |].
  exact (impulse_response Demo.primed (frac 3 16)
           [samples [0; 1]%Z; samples [0; 0]%Z] 1 2 primed_wf eq_refl).
Defined.

(** At 8 Hz with a maximum delay of one second: a delay control of 3/16 s
    is 1.5 samples, which rounds to 2, and the impulse comes out 1 sample
    late; a delay control of 2 s is 16 samples under every rounding, and
    the impulse comes out 8 samples late. *)
Lemma impulse_response_counterexample :
  round_nearest (frac 3 16 * Q2Qc (inject_Z 8))%Qc = 2%Z /\
  map readout ∘ fst <$>
    run_blocks Echo (activateDelayLine Demo.line)
      (echo_calls (frac 3 16) 1%Qc [samples [1; 0]%Z; samples [0; 0]%Z])
    = Some [[0; 1]; [0; 0]]%Q /\
  round_nearest (frac 2 1 * Q2Qc (inject_Z 8))%Qc = 16%Z /\
  Qc_trunc (frac 2 1 * Q2Qc (inject_Z 8))%Qc = 16%Z /\
  map readout ∘ fst <$>
    run_blocks Echo (activateDelayLine Demo.line)
      (echo_calls (frac 2 1) 1%Qc
         [samples [1; 0; 0; 0; 0; 0]%Z; samples [0; 0; 0; 0; 0; 0]%Z;
          samples [0; 0; 0; 0; 0; 0]%Z])
    = Some [[0; 0; 0; 0; 0; 0]; [0; 0; 1; 0; 0; 0]; [0; 0; 0; 0; 0; 0]]%Q.
Proof. vm_compute. repeat split. Qed.

(** ** Activation *)

Section Activation.

Context {D : Type} `{SampleLaws D}.

Implicit Types (e : DelayLine D) (ports : Ports D).

(** A run changes neither the sample rate, the maximum delay nor the
    buffer size. *)
Lemma run_keeps (t : DelayType) e ports out e' :
  wf e -> afRunFunctions t e ports = Some (out, e') ->
  wf e' /\
  m_fSampleRate e' = m_fSampleRate e /\
  m_fMaximumDelay e' = m_fMaximumDelay e /\
  m_lBufferSize e' = m_lBufferSize e.
Proof.
  intros He Hrun.
  destruct (run_returns t e ports He) as (out1 & e1 & Hrun1 & He1 & _ & Hsize & _).
  rewrite Hrun in Hrun1. injection Hrun1 as <- <-. split; [done |].
  destruct (delay_samples_wf e (DL_DELAY_LENGTH ports) He) as (lDelay & Hd & _).
  destruct t; cbn [afRunFunctions] in Hrun.
  - rewrite (runSimpleDelayLine_eq e ports lDelay He Hd) in Hrun.
    destruct (simple_loop _ _ _ _ _ _ _ _) as [[o b] |]; [| done].
    cbn in Hrun. injection Hrun as <- <-. done.
  - rewrite (runFeedbackDelayLine_eq e ports lDelay He Hd) in Hrun.
    destruct (feedback_loop _ _ _ _ _ _ _ _ _) as [[o b] |]; [| done].
    cbn in Hrun. injection Hrun as <- <-. done.
Qed.

Lemma run_blocks_keeps (t : DelayType) calls : forall e outs e',
  wf e -> run_blocks t e calls = Some (outs, e') ->
  wf e' /\
  m_fSampleRate e' = m_fSampleRate e /\
  m_fMaximumDelay e' = m_fMaximumDelay e /\
  m_lBufferSize e' = m_lBufferSize e.
Proof.
  induction calls as [| ports calls IH]; intros e outs e' He Hrun.
  - cbn in Hrun. injection Hrun as <- <-. done.
  - cbn [run_blocks] in Hrun.
    destruct (afRunFunctions t e ports) as [[out e1] |] eqn:Hrun1; [| done].
    cbn [mbind option_bind] in Hrun.
    destruct (run_blocks t e1 calls) as [[outs1 e2] |] eqn:Hrun2; [| done].
    cbn in Hrun. injection Hrun as <- <-.
    destruct (run_keeps t e ports out e1 He Hrun1) as (He1 & Hr & Hm & Hs).
    destruct (IH e1 outs1 e2 He1 Hrun2) as (He2 & Hr2 & Hm2 & Hs2).
    split; [done |]. split; [congruence |]. split; congruence.
Qed.

(** X1.  Activation resets the whole history: the buffer is silent, the write
    pointer is 0, and activating once more changes nothing. *)
Theorem activation_resets e :
  wf e ->
  m_pfBuffer (activateDelayLine e) = replicate (Z.to_nat (m_lBufferSize e)) fzero /\
  m_lWritePointer (activateDelayLine e) = 0 /\
  activateDelayLine (activateDelayLine e) = activateDelayLine e.
Proof.
  intros He. split; [by apply activate_buffer |]. split; [done |].
  unfold activateDelayLine. cbn. f_equal.
  rewrite (drop_ge (m_pfBuffer e)) by (pose proof (wf_alloc e He); lia).
  rewrite app_nil_r, drop_ge by (rewrite length_replicate; lia).
  by rewrite app_nil_r.
Qed.

(** X2.  Whatever blocks were run, through either run function and with
    whatever controls, activating again gives the instance of the first
    activation: nothing of the blocks is left. *)
Theorem reactivation_restores (t : DelayType) e calls :
  wf e ->
  exists outs e',
    run_blocks t (activateDelayLine e) calls = Some (outs, e') /\
    activateDelayLine e' = activateDelayLine e.
Proof.
  intros He. pose proof (wf_size_bounds e He) as Hc.
  destruct (run_blocks_pointer t calls (activateDelayLine e))
    as (outs & e' & Hrun & _); [by apply activate_wf | cbn; lia |].
  exists outs, e'. split; [done |].
  destruct (run_blocks_keeps t calls (activateDelayLine e) outs e'
              (activate_wf e He) Hrun) as (He' & Hr & Hm & Hs).
  cbn in Hr, Hm, Hs. unfold activateDelayLine. rewrite Hr, Hm, Hs. f_equal.
  rewrite (drop_ge (m_pfBuffer e)) by (pose proof (wf_alloc e He); lia).
  rewrite (drop_ge (m_pfBuffer e')) by (pose proof (wf_alloc e' He'); lia).
  done.
Qed.

End Activation.

Lemma activation_resets_witness :
  wf Demo.primed /\
  m_pfBuffer (activateDelayLine Demo.primed)
    = replicate (Z.to_nat (m_lBufferSize Demo.primed)) fzero /\
  m_lWritePointer (activateDelayLine Demo.primed) = 0%Z /\
  activateDelayLine (activateDelayLine Demo.primed) = activateDelayLine Demo.primed.
Proof. split; [exact primed_wf |]. exact (activation_resets Demo.primed primed_wf). Defined.

Lemma raw_wf : wf Demo.raw.
Proof.
  destruct (DelayLine_new_returns 64 8 1%Qc Demo.fresh Demo.lStale)
    as (e & Hnew & He & _); [lia | exact fle_zero_one | vm_compute; reflexivity | lia |].
  assert (DelayLine_new 64 8 1%Qc Demo.fresh Demo.lStale = Some Demo.raw) as Hraw
    by (vm_compute; reflexivity).
  rewrite Hnew in Hraw. by injection Hraw as <-.
Qed.

Lemma reactivation_restores_witness :
  wf Demo.raw /\
  exists outs e',
    run_blocks Feedback (activateDelayLine Demo.raw)
      [Demo.call (frac 1 4) (frac 1 2) (frac 1 2) [3; 1; 4]%Z] = Some (outs, e') /\
    activateDelayLine e' = activateDelayLine Demo.raw.
Proof.
  split; [exact raw_wf |].
  exact (reactivation_restores Feedback Demo.raw
           [Demo.call (frac 1 4) (frac 1 2) (frac 1 2) [3; 1; 4]%Z] raw_wf).
Defined.

(** ** Cutting a block in two *)

Section Splitting.

Context {D : Type} `{SampleLaws D}.

Implicit Types (e : DelayLine D) (buf a b : list D) (i w r c : Z).

(** The loops depend on the offsets and the first index only through the
    slots they lead to. *)
Lemma simple_loop_shift c (fDry fWet : D) input : forall buf i i' w w' r r',
  Word.pow2 c -> Z.of_nat (length buf) = c ->
  (i + w) mod c = (i' + w') mod c -> (i + r) mod c = (i' + r') mod c ->
  simple_loop buf (Word.sub c 1) w r fDry fWet i input
    = simple_loop buf (Word.sub c 1) w' r' fDry fWet i' input.
Proof.
  induction input as [| x rest IH]; intros buf i i' w w' r r' Hc Hlen Hw Hr; [done |].
  destruct (simple_loop_step c buf w r fDry fWet i x rest Hc Hlen) as (v & Hv & ->).
  destruct (simple_loop_step c buf w' r' fDry fWet i' x rest Hc Hlen) as (v' & Hv' & ->).
  rewrite Hw, Hr in Hv. assert (v' = v) as -> by congruence.
  rewrite Hw.
  rewrite (IH _ (Word.add i 1) (Word.add i' 1) w w' r r'); try done.
  - by rewrite length_insert.
  - rewrite !next_index_mod by done. by apply mod_add_cong.
  - rewrite !next_index_mod by done. by apply mod_add_cong.
Qed.

Lemma feedback_loop_shift c (fDry fWet fFeedback : D) input : forall buf i i' w w' r r',
  Word.pow2 c -> Z.of_nat (length buf) = c ->
  (i + w) mod c = (i' + w') mod c -> (i + r) mod c = (i' + r') mod c ->
  feedback_loop buf (Word.sub c 1) w r fDry fWet fFeedback i input
    = feedback_loop buf (Word.sub c 1) w' r' fDry fWet fFeedback i' input.
Proof.
  induction input as [| x rest IH]; intros buf i i' w w' r r' Hc Hlen Hw Hr; [done |].
  destruct (feedback_loop_step c buf w r fDry fWet fFeedback i x rest Hc Hlen)
    as (v & Hv & ->).
  destruct (feedback_loop_step c buf w' r' fDry fWet fFeedback i' x rest Hc Hlen)
    as (v' & Hv' & ->).
  rewrite Hr in Hv. assert (v' = v) as -> by congruence.
  rewrite Hw.
  rewrite (IH _ (Word.add i 1) (Word.add i' 1) w w' r r'); try done.
  - by rewrite length_insert.
  - rewrite !next_index_mod by done. by apply mod_add_cong.
  - rewrite !next_index_mod by done. by apply mod_add_cong.
Qed.

(** A loop over two blocks in a row is the loop over the first, then the
    loop over the second from the index the first one ends at. *)
Lemma simple_loop_app c w r (fDry fWet : D) b : forall a buf i,
  Word.pow2 c -> Z.of_nat (length buf) = c ->
  simple_loop buf (Word.sub c 1) w r fDry fWet i (a ++ b)
    = ('(out1, buf1) ← simple_loop buf (Word.sub c 1) w r fDry fWet i a;
       '(out2, buf2) ← simple_loop buf1 (Word.sub c 1) w r fDry fWet
                         (i + Z.of_nat (length a)) b;
       Some (out1 ++ out2, buf2)).
Proof.
  induction a as [| x a IH]; intros buf i Hc Hlen.
  - cbn. rewrite Z.add_0_r. by destruct (simple_loop _ _ _ _ _ _ _ _) as [[o u] |].
  - cbn [app].
    destruct (simple_loop_step c buf w r fDry fWet i x (a ++ b) Hc Hlen) as (v & Hv & ->).
    destruct (simple_loop_step c buf w r fDry fWet i x a Hc Hlen) as (v' & Hv' & ->).
    assert (v' = v) as -> by congruence.
    rewrite IH by (done || by rewrite length_insert).
    destruct (simple_loop_runs c w r fDry fWet a
                (<[Z.to_nat ((i + w) mod c) := x]> buf) (Word.add i 1) Hc)
      as (o1 & b1 & -> & _ & Hb1); [by rewrite length_insert |].
    cbn [mbind option_bind].
    rewrite (simple_loop_shift c fDry fWet b b1
               (Word.add i 1 + Z.of_nat (length a)) (i + Z.of_nat (length (x :: a)))
               w w r r); try done.
    + by destruct (simple_loop _ _ _ _ _ _ _ _) as [[o u] |].
    + by rewrite Hb1, length_insert.
    + replace (Word.add i 1 + Z.of_nat (length a) + w)
        with (Word.add i 1 + (Z.of_nat (length a) + w)) by lia.
      rewrite next_index_mod by done. f_equal. cbn [length]. lia.
    + replace (Word.add i 1 + Z.of_nat (length a) + r)
        with (Word.add i 1 + (Z.of_nat (length a) + r)) by lia.
      rewrite next_index_mod by done. f_equal. cbn [length]. lia.
Qed.

Lemma feedback_loop_app c w r (fDry fWet fFeedback : D) b : forall a buf i,
  Word.pow2 c -> Z.of_nat (length buf) = c ->
  feedback_loop buf (Word.sub c 1) w r fDry fWet fFeedback i (a ++ b)
    = ('(out1, buf1) ← feedback_loop buf (Word.sub c 1) w r fDry fWet fFeedback i a;
       '(out2, buf2) ← feedback_loop buf1 (Word.sub c 1) w r fDry fWet fFeedback
                         (i + Z.of_nat (length a)) b;
       Some (out1 ++ out2, buf2)).
Proof.
  induction a as [| x a IH]; intros buf i Hc Hlen.
  - cbn. rewrite Z.add_0_r. by destruct (feedback_loop _ _ _ _ _ _ _ _ _) as [[o u] |].
  - cbn [app].
    destruct (feedback_loop_step c buf w r fDry fWet fFeedback i x (a ++ b) Hc Hlen)
      as (v & Hv & ->).
    destruct (feedback_loop_step c buf w r fDry fWet fFeedback i x a Hc Hlen)
      as (v' & Hv' & ->).
    assert (v' = v) as -> by congruence.
    rewrite IH by (done || by rewrite length_insert).
    destruct (feedback_loop_runs c w r fDry fWet fFeedback a
                (<[Z.to_nat ((i + w) mod c) := fadd x (fmul v fFeedback)]> buf)
                (Word.add i 1) Hc)
      as (o1 & b1 & -> & _ & Hb1); [by rewrite length_insert |].
    cbn [mbind option_bind].
    rewrite (feedback_loop_shift c fDry fWet fFeedback b b1
               (Word.add i 1 + Z.of_nat (length a)) (i + Z.of_nat (length (x :: a)))
               w w r r); try done.
    + by destruct (feedback_loop _ _ _ _ _ _ _ _ _) as [[o u] |].
    + by rewrite Hb1, length_insert.
    + replace (Word.add i 1 + Z.of_nat (length a) + w)
        with (Word.add i 1 + (Z.of_nat (length a) + w)) by lia.
      rewrite next_index_mod by done. f_equal. cbn [length]. lia.
    + replace (Word.add i 1 + Z.of_nat (length a) + r)
        with (Word.add i 1 + (Z.of_nat (length a) + r)) by lia.
      rewrite next_index_mod by done. f_equal. cbn [length]. lia.
Qed.

End Splitting.

Section SplitRuns.

Context {D : Type} `{SampleLaws D}.

Implicit Types (e : DelayLine D) (a b : list D).

(** X3.  Running a block in one call or cut in two at any place, with the same
    controls for both parts, gives the same output samples and the same
    instance, for either run function and blocks of any length. *)
Theorem run_split (t : DelayType) e (fDelay fWet fFeedback : D) a b :
  wf e ->
  afRunFunctions t e (mkPorts fDelay fWet (a ++ b) fFeedback)
    = ('(out1, e1) ← afRunFunctions t e (mkPorts fDelay fWet a fFeedback);
       '(out2, e2) ← afRunFunctions t e1 (mkPorts fDelay fWet b fFeedback);
       Some (out1 ++ out2, e2)).
Proof.
  intros He. pose proof (wf_size_bounds e He) as Hc.
  assert (Word.pow2 (m_lBufferSize e)) as Hp by apply He.
  destruct (delay_samples_wf e fDelay He) as (lDelay & Hd & _).
  destruct t; cbn [afRunFunctions].
  - rewrite (runSimpleDelayLine_eq e (mkPorts fDelay fWet (a ++ b) fFeedback) lDelay He Hd),
            (runSimpleDelayLine_eq e (mkPorts fDelay fWet a fFeedback) lDelay He Hd).
    cbn [DL_INPUT DL_DRY_WET DL_FEEDBACK].
    rewrite simple_loop_app by (done || apply He).
    edestruct (simple_loop_runs (m_lBufferSize e)) as (o1 & b1 & -> & _ & Hb1);
      [exact Hp | apply He |].
    cbn [mbind option_bind].
    set (e1 := mkDelayLine _ _ b1 _ _).
    assert (wf e1) as He1 by (by apply wf_after_run).
    rewrite (runSimpleDelayLine_eq e1 (mkPorts fDelay fWet b fFeedback) lDelay He1 Hd).
    cbn [DL_INPUT DL_DRY_WET DL_FEEDBACK e1 m_pfBuffer m_lBufferSize m_lWritePointer
         m_fSampleRate m_fMaximumDelay].
    rewrite (simple_loop_shift (m_lBufferSize e) _ _ b b1
               (0 + Z.of_nat (length a)) 0 (m_lWritePointer e)
               ((m_lWritePointer e + Z.of_nat (length a)) mod m_lBufferSize e)
               (Word.sub (Word.add (m_lWritePointer e) (m_lBufferSize e)) lDelay)
               (Word.sub (Word.add ((m_lWritePointer e + Z.of_nat (length a))
                                      mod m_lBufferSize e) (m_lBufferSize e)) lDelay));
      [| exact Hp | rewrite Hb1; apply He | |].
    + destruct (simple_loop _ _ _ _ _ _ _ _) as [[o2 b2] |]; [| done].
      cbn. do 3 f_equal. rewrite Zplus_mod_idemp_l, length_app, Nat2Z.inj_add.
      f_equal. lia.
    + rewrite !Z.add_0_l, Z.mod_mod by lia. f_equal. lia.
    + rewrite !Z.add_0_l, (Z.add_comm (Z.of_nat (length a))).
      rewrite (mod_add_cong _ _ _ _ (read_offset_mod _ _ lDelay Hp)).
      rewrite (read_offset_mod _ _ lDelay Hp), Zminus_mod_idemp_l. f_equal. lia.
  - rewrite (runFeedbackDelayLine_eq e (mkPorts fDelay fWet (a ++ b) fFeedback) lDelay He Hd),
            (runFeedbackDelayLine_eq e (mkPorts fDelay fWet a fFeedback) lDelay He Hd).
    cbn [DL_INPUT DL_DRY_WET DL_FEEDBACK].
    rewrite feedback_loop_app by (done || apply He).
    edestruct (feedback_loop_runs (m_lBufferSize e)) as (o1 & b1 & -> & _ & Hb1);
      [exact Hp | apply He |].
    cbn [mbind option_bind].
    set (e1 := mkDelayLine _ _ b1 _ _).
    assert (wf e1) as He1 by (by apply wf_after_run).
    rewrite (runFeedbackDelayLine_eq e1 (mkPorts fDelay fWet b fFeedback) lDelay He1 Hd).
    cbn [DL_INPUT DL_DRY_WET DL_FEEDBACK e1 m_pfBuffer m_lBufferSize m_lWritePointer
         m_fSampleRate m_fMaximumDelay].
    rewrite (feedback_loop_shift (m_lBufferSize e) _ _ _ b b1
               (0 + Z.of_nat (length a)) 0 (m_lWritePointer e)
               ((m_lWritePointer e + Z.of_nat (length a)) mod m_lBufferSize e)
               (Word.sub (Word.add (m_lWritePointer e) (m_lBufferSize e))
                         (feedback_delay lDelay))
               (Word.sub (Word.add ((m_lWritePointer e + Z.of_nat (length a))
                                      mod m_lBufferSize e) (m_lBufferSize e))
                         (feedback_delay lDelay)));
      [| exact Hp | rewrite Hb1; apply He | |].
    + destruct (feedback_loop _ _ _ _ _ _ _ _ _) as [[o2 b2] |]; [| done].
      cbn. do 3 f_equal. rewrite Zplus_mod_idemp_l, length_app, Nat2Z.inj_add.
      f_equal. lia.
    + rewrite !Z.add_0_l, Z.mod_mod by lia. f_equal. lia.
    + rewrite !Z.add_0_l, (Z.add_comm (Z.of_nat (length a))).
      rewrite (mod_add_cong _ _ _ _ (read_offset_mod _ _ (feedback_delay lDelay) Hp)).
      rewrite (read_offset_mod _ _ (feedback_delay lDelay) Hp), Zminus_mod_idemp_l.
      f_equal. lia.
Qed.

End SplitRuns.

(** ** The delays on whole streams, controls changing from block to block *)

Section Modulation.

Context {D : Type} `{SampleLaws D}.

Implicit Types (e : DelayLine D) (ports : Ports D) (past stored input : list D).

Lemma delay_samples_control e ports :
  wf e ->
  delay_samples e (DL_DELAY_LENGTH ports) = Some (control_delay e ports) /\
  0 <= control_delay e ports < m_lBufferSize e.
Proof.
  intros He.
  destruct (delay_samples_wf e (DL_DELAY_LENGTH ports) He) as (lDelay & Hd & Hbound).
  assert (lDelay = control_delay e ports) as <-; [| done].
  unfold delay_samples, to_ulong in Hd. unfold control_delay.
  destruct (_ && _) in Hd; [| done]. by injection Hd as <-.
Qed.

Lemma echo_blocks_ext e e' calls : forall past,
  m_fSampleRate e' = m_fSampleRate e -> m_fMaximumDelay e' = m_fMaximumDelay e ->
  echo_blocks e' past calls = echo_blocks e past calls.
Proof.
  induction calls as [| ports calls IH]; intros past Hr Hm; [done |].
  cbn [echo_blocks]. unfold control_delay. rewrite Hr, Hm, IH by done. done.
Qed.

Lemma feedback_blocks_ext e e' calls : forall stored,
  m_fSampleRate e' = m_fSampleRate e -> m_fMaximumDelay e' = m_fMaximumDelay e ->
  feedback_blocks e' stored calls = feedback_blocks e stored calls.
Proof.
  induction calls as [| ports calls IH]; intros stored Hr Hm; [done |].
  cbn [feedback_blocks]. unfold control_delay. rewrite Hr, Hm.
  destruct (feedback_stream _ _ _ _ _ _) as [out stored']. by rewrite IH.
Qed.

Lemma run_blocks_echo_blocks calls : forall e past,
  wf e ->
  m_lWritePointer e mod m_lBufferSize e = Z.of_nat (length past) mod m_lBufferSize e ->
  holds_past (m_lBufferSize e) (m_pfBuffer e) past ->
  exists e',
    run_blocks Echo e calls = Some (echo_blocks e past calls, e') /\
    holds_past (m_lBufferSize e) (m_pfBuffer e') (past ++ concat (map DL_INPUT calls)).
Proof.
  induction calls as [| ports calls IH]; intros e past He Hw Hpast.
  - exists e. cbn. by rewrite app_nil_r.
  - destruct (delay_samples_control e ports He) as [Hd Hbound].
    cbn [run_blocks afRunFunctions echo_blocks].
    rewrite (runSimpleDelayLine_eq e ports _ He Hd).
    destruct (simple_loop_echo (m_lBufferSize e) (m_lWritePointer e)
                (Word.sub (Word.add (m_lWritePointer e) (m_lBufferSize e))
                          (control_delay e ports))
                (control_delay e ports)
                (fsub fone (LIMIT_BETWEEN (DL_DRY_WET ports) fzero fone))
                (LIMIT_BETWEEN (DL_DRY_WET ports) fzero fone)
                (DL_INPUT ports) past (m_pfBuffer e) 0)
      as (buf' & -> & Hlen & Hpast'); try done; try apply He.
    { apply read_offset_mod, He. }
    cbn [mbind option_bind].
    set (e1 := mkDelayLine _ _ buf' _ _).
    destruct (IH e1 (past ++ DL_INPUT ports)) as (e' & Hrun & Hfinal).
    + by apply wf_after_run.
    + cbn. rewrite Z.mod_mod by (pose proof (wf_size_bounds e He); lia).
      rewrite length_app, Nat2Z.inj_add. by apply mod_add_cong.
    + exact Hpast'.
    + rewrite Hrun. cbn [mbind option_bind]. exists e'.
      rewrite (echo_blocks_ext e e1) by done. split; [done |].
      cbn [map concat]. rewrite app_assoc. exact Hfinal.
Qed.

(** X4.  From activation on, the plain delay computes the echo of the stream
    put in so far, block after block, each block with the delay and the
    dry/wet level of its own call; whatever the controls were, the buffer
    ends up holding the last samples put in, the sample of time [s] at
    slot [s mod size]. *)
Theorem plain_delay_modulated e calls :
  wf e ->
  exists e',
    run_blocks Echo (activateDelayLine e) calls = Some (echo_blocks e [] calls, e') /\
    holds_past (m_lBufferSize e) (m_pfBuffer e') (concat (map DL_INPUT calls)).
Proof.
  intros He.
  destruct (run_blocks_echo_blocks calls (activateDelayLine e) [])
    as (e' & Hrun & Hfinal);
    [by apply activate_wf | done | exact (holds_past_activated e He) |].
  exists e'. by rewrite Hrun, (echo_blocks_ext e (activateDelayLine e)).
Qed.

(** The feedback loop on a buffer that records the samples stored so far:
    it computes the feedback comb, for a delay from 1 sample up to the
    whole buffer. *)
Lemma feedback_loop_stream c w r lDelay (fDry fWet fFeedback : D) input :
  forall stored buf i,
  Word.pow2 c -> Z.of_nat (length buf) = c -> 1 <= lDelay <= c ->
  (i + w) mod c = Z.of_nat (length stored) mod c ->
  r mod c = (w - lDelay) mod c ->
  holds_past c buf stored ->
  exists buf',
    feedback_loop buf (Word.sub c 1) w r fDry fWet fFeedback i input
      = Some ((feedback_stream fDry fWet fFeedback lDelay stored input).1, buf') /\
    length buf' = length buf /\
    holds_past c buf' (feedback_stream fDry fWet fFeedback lDelay stored input).2 /\
    length (feedback_stream fDry fWet fFeedback lDelay stored input).2
      = (length stored + length input)%nat.
Proof.
  induction input as [| x rest IH]; intros stored buf i Hc Hlen Hd Hw Hr Hpast.
  - exists buf. cbn. by rewrite Nat.add_0_r.
  - destruct (feedback_loop_step c buf w r fDry fWet fFeedback i x rest Hc Hlen)
      as (v & Hv & ->).
    assert ((i + r) mod c = (Z.of_nat (length stored) - lDelay) mod c) as Hslot.
    { rewrite (Z.add_comm i r), (mod_add_cong c r (w - lDelay) i Hr).
      replace (w - lDelay + i) with (i + w - lDelay) by lia.
      by apply mod_sub_cong. }
    rewrite Hslot, Hpast in Hv by lia. injection Hv as <-.
    rewrite Hw.
    set (v := at_time stored (Z.of_nat (length stored) - lDelay)).
    pose proof (holds_past_store c buf stored (fadd x (fmul v fFeedback)) Hc Hlen Hpast)
      as Hpast'.
    destruct (IH (stored ++ [fadd x (fmul v fFeedback)])
                 (<[Z.to_nat (Z.of_nat (length stored) mod c)
                    := fadd x (fmul v fFeedback)]> buf)
                 (Word.add i 1) Hc)
      as (buf' & -> & Hlen' & Hfinal & Hcount); try done.
    + by rewrite length_insert.
    + rewrite next_index_mod, length_app, Nat.add_1_r, Nat2Z.inj_succ by done.
      by apply mod_add_cong.
    + exists buf'. cbn [feedback_stream]. fold v.
      destruct (feedback_stream fDry fWet fFeedback lDelay
                  (stored ++ [fadd x (fmul v fFeedback)]) rest) as [out stored'].
      cbn in *. split; [done |]. split; [by rewrite Hlen', length_insert |].
      split; [done |]. rewrite Hcount, length_app. cbn. lia.
Qed.

Lemma run_blocks_feedback_blocks calls : forall e stored,
  wf e ->
  m_lWritePointer e mod m_lBufferSize e = Z.of_nat (length stored) mod m_lBufferSize e ->
  holds_past (m_lBufferSize e) (m_pfBuffer e) stored ->
  exists e', run_blocks Feedback e calls = Some (feedback_blocks e stored calls, e').
Proof.
  induction calls as [| ports calls IH]; intros e stored He Hw Hpast.
  - by exists e.
  - destruct (delay_samples_control e ports He) as [Hd Hbound].
    pose proof (wf_size_bounds e He) as Hc.
    cbn [run_blocks afRunFunctions feedback_blocks].
    rewrite (runFeedbackDelayLine_eq e ports _ He Hd).
    destruct (feedback_loop_stream (m_lBufferSize e) (m_lWritePointer e)
                (Word.sub (Word.add (m_lWritePointer e) (m_lBufferSize e))
                          (feedback_delay (control_delay e ports)))
                (feedback_delay (control_delay e ports))
                (fsub fone (LIMIT_BETWEEN (DL_DRY_WET ports) fzero fone))
                (LIMIT_BETWEEN (DL_DRY_WET ports) fzero fone)
                (LIMIT_BETWEEN (DL_FEEDBACK ports) (fopp fone) fone)
                (DL_INPUT ports) stored (m_pfBuffer e) 0)
      as (buf' & -> & Hlen & Hpast' & Hcount); try done; try apply He.
    { unfold feedback_delay. destruct (control_delay e ports =? 0) eqn:Hz; [lia |].
      apply Z.eqb_neq in Hz. lia. }
    { apply read_offset_mod, He. }
    destruct (feedback_stream _ _ _ _ stored (DL_INPUT ports)) as [out stored'].
    cbn [fst snd mbind option_bind] in *.
    set (e1 := mkDelayLine _ _ buf' _ _).
    destruct (IH e1 stored') as (e' & Hrun).
    + by apply wf_after_run.
    + cbn. rewrite Z.mod_mod by lia.
      rewrite Hcount, Nat2Z.inj_add. by apply mod_add_cong.
    + exact Hpast'.
    + rewrite Hrun. cbn [mbind option_bind]. exists e'.
      by rewrite (feedback_blocks_ext e e1).
Qed.

(** X5.  From activation on, the feedback delay computes the feedback comb of
    the stream, block after block, each block with the delay, the dry/wet
    level and the feedback of its own call; a delay control that converts
    to 0 samples counts as 1 sample. *)
Theorem feedback_delay_modulated e calls :
  wf e ->
  exists e',
    run_blocks Feedback (activateDelayLine e) calls
      = Some (feedback_blocks e [] calls, e').
Proof.
  intros He.
  destruct (run_blocks_feedback_blocks calls (activateDelayLine e) [])
    as (e' & Hrun); [by apply activate_wf | done | exact (holds_past_activated e He) |].
  exists e'. by rewrite Hrun, (feedback_blocks_ext e (activateDelayLine e)).
Qed.

End Modulation.

Lemma run_split_witness :
  wf Demo.primed /\
  afRunFunctions Feedback Demo.primed
      (mkPorts (frac 1 4) (frac 1 2) (samples [3; 1]%Z ++ samples [4; 1; 5]%Z) (frac 1 2))
    = ('(out1, e1) ← afRunFunctions Feedback Demo.primed
                       (mkPorts (frac 1 4) (frac 1 2) (samples [3; 1]%Z) (frac 1 2));
       '(out2, e2) ← afRunFunctions Feedback e1
                       (mkPorts (frac 1 4) (frac 1 2) (samples [4; 1; 5]%Z) (frac 1 2));
       Some (out1 ++ out2, e2)).
Proof.
  split; [exact primed_wf |].
  exact (run_split Feedback Demo.primed (frac 1 4) (frac 1 2) (frac 1 2)
           (samples [3; 1]%Z) (samples [4; 1; 5]%Z) primed_wf).
Defined.

Lemma plain_delay_modulated_witness :
  wf Demo.raw /\
  exists e',
    run_blocks Echo (activateDelayLine Demo.raw)
      [Demo.call (frac 1 4) (frac 1 2) 0%Qc [3; 1; 4]%Z;
       Demo.call (frac 1 8) 1%Qc 0%Qc [1; 5]%Z]
    = Some (echo_blocks Demo.raw []
              [Demo.call (frac 1 4) (frac 1 2) 0%Qc [3; 1; 4]%Z;
               Demo.call (frac 1 8) 1%Qc 0%Qc [1; 5]%Z], e') /\
    holds_past (m_lBufferSize Demo.raw) (m_pfBuffer e')
      (concat (map DL_INPUT
                 [Demo.call (frac 1 4) (frac 1 2) 0%Qc [3; 1; 4]%Z;
                  Demo.call (frac 1 8) 1%Qc 0%Qc [1; 5]%Z])).
Proof.
  split; [exact raw_wf |].
  exact (plain_delay_modulated Demo.raw _ raw_wf).
Defined.

Lemma feedback_delay_modulated_witness :
  wf Demo.raw /\
  exists e',
    run_blocks Feedback (activateDelayLine Demo.raw)
      [Demo.call (frac 1 4) (frac 1 2) (frac 1 2) [3; 1; 4]%Z;
       Demo.call 0%Qc 1%Qc (frac (-3) 4) [1; 5]%Z]
    = Some (feedback_blocks Demo.raw []
              [Demo.call (frac 1 4) (frac 1 2) (frac 1 2) [3; 1; 4]%Z;
               Demo.call 0%Qc 1%Qc (frac (-3) 4) [1; 5]%Z], e').
Proof.
  split; [exact raw_wf |].
  exact (feedback_delay_modulated Demo.raw _ raw_wf).
Defined.

(** ** The delay in samples *)

Section DelayControl.

Context {D : Type} `{SampleLaws D}.

Add Ring sample_ring_control : sample_ring.

Implicit Types (e : DelayLine D).

Lemma LIMIT_BETWEEN_mono (x y a b : D) :
  fle a b -> fle x y -> fle (LIMIT_BETWEEN x a b) (LIMIT_BETWEEN y a b).
Proof.
  intros Hab Hxy. destruct (LIMIT_BETWEEN_range y a b Hab) as [Hlo Hhi].
  unfold LIMIT_BETWEEN at 1.
  destruct (flt x a) eqn:Hxa; [done |].
  destruct (flt b x) eqn:Hbx.
  - rewrite LIMIT_BETWEEN_above; [apply fle_refl | done |].
    destruct (flt b y) eqn:Hby; [done |].
    assert (fle x b) as Hxb by (by apply fle_trans with y).
    unfold fle in Hxb. congruence.
  - unfold LIMIT_BETWEEN.
    destruct (flt y a) eqn:Hya.
    + assert (fle a y) as Hay by (by apply fle_trans with x).
      unfold fle in Hay. congruence.
    + destruct (flt b y); done.
Qed.

(** X7.  The delay in samples never decreases when the delay control
    increases; it is at least 0, at most the maximum delay in samples,
    and smaller than the buffer. *)
Theorem delay_monotone e (fDelay fDelay' : D) :
  wf e -> fle fDelay fDelay' ->
  exists lDelay lDelay',
    delay_samples e fDelay = Some lDelay /\
    delay_samples e fDelay' = Some lDelay' /\
    0 <= lDelay <= lDelay' /\
    lDelay' <= trunc (fmul (m_fMaximumDelay e) (m_fSampleRate e)) /\
    lDelay' < m_lBufferSize e.
Proof.
  intros He Hle.
  destruct (delay_samples_control e (mkPorts fDelay fzero [] fzero) He) as [Hd Hb].
  destruct (delay_samples_control e (mkPorts fDelay' fzero [] fzero) He) as [Hd' Hb'].
  cbn [DL_DELAY_LENGTH] in Hd, Hd'. unfold control_delay in *.
  cbn [DL_DELAY_LENGTH] in *.
  eexists _, _. split; [exact Hd |]. split; [exact Hd' |].
  split; [| split; [| lia]].
  - split; [lia |]. apply trunc_mono, fmul_mono_l; [| apply He].
    apply LIMIT_BETWEEN_mono; [apply He | done].
  - apply trunc_mono, fmul_mono_l; [| apply He].
    apply (LIMIT_BETWEEN_range fDelay' fzero (m_fMaximumDelay e)), He.
Qed.

End DelayControl.

Lemma delay_monotone_witness :
  wf Demo.primed /\ fle (frac 1 4) (frac 3 5) /\
  exists lDelay lDelay',
    delay_samples Demo.primed (frac 1 4) = Some lDelay /\
    delay_samples Demo.primed (frac 3 5) = Some lDelay' /\
    (0 <= lDelay <= lDelay')%Z /\
    (lDelay' <= trunc (fmul (m_fMaximumDelay Demo.primed) (m_fSampleRate Demo.primed)))%Z /\
    (lDelay' < m_lBufferSize Demo.primed)%Z.
Proof.
  split; [exact primed_wf |]. split; [reflexivity |].
  exact (delay_monotone Demo.primed (frac 1 4) (frac 3 5) primed_wf eq_refl).
Defined.

(** ** More on construction *)

Section ConstructionDomain.

Context {D : Type} `{SampleLaws D}.

(** X8.  The buffer is never more than twice as long as the maximum delay in
    samples (one slot when that is 0). *)
Theorem capacity_at_most_double (fuel : nat) (lSampleRate : Z) (fMaximumDelay : D)
    (fresh : nat -> D) (lStale : Z) :
  0 <= lSampleRate -> fle fzero fMaximumDelay ->
  trunc (fmul (of_ulong lSampleRate) fMaximumDelay) < 2 ^ 63 ->
  (64 <= fuel)%nat ->
  exists e,
    DelayLine_new fuel lSampleRate fMaximumDelay fresh lStale = Some e /\
    trunc (fmul (of_ulong lSampleRate) fMaximumDelay) < m_lBufferSize e /\
    m_lBufferSize e
      <= Z.max 1 (2 * trunc (fmul (of_ulong lSampleRate) fMaximumDelay)).
Proof.
  intros Hrate Hmax Hfit Hfuel.
  destruct (DelayLine_new_returns fuel lSampleRate fMaximumDelay fresh lStale)
    as (e & Hnew & _ & (k & Hk & Hsize) & Hlt & Hleast); try done.
  exists e. split; [done |]. split; [done |].
  set (n := trunc (fmul (of_ulong lSampleRate) fMaximumDelay)) in *.
  rewrite Hsize in *. destruct (Z.eq_dec k 0) as [-> | Hne]; [cbn; lia |].
  assert (2 ^ k = 2 * 2 ^ (k - 1)) as Hdouble.
  { rewrite <- Z.pow_succ_r by lia. f_equal. lia. }
  destruct (Z.lt_ge_cases n (2 ^ (k - 1))) as [Hsmall | Hbig]; [| lia].
  assert (2 ^ k <= 2 ^ (k - 1)) by (apply Hleast; [exists (k - 1); split; [lia | done] | done]).
  assert (0 < 2 ^ (k - 1)) by (apply Z.pow_pos_nonneg; lia). lia.
Qed.

(** X9.  The constructor returns only when the maximum delay in samples is
    below [2 ^ 63], or is [2 ^ 64 - 1] (the minimum size then wraps to 0):
    for every value in between the sizing loop runs forever. *)
Theorem constructor_domain (fuel : nat) (lSampleRate : Z) (fMaximumDelay : D)
    (fresh : nat -> D) (lStale : Z) (e : DelayLine D) :
  DelayLine_new fuel lSampleRate fMaximumDelay fresh lStale = Some e ->
  let n := trunc (fmul (of_ulong lSampleRate) fMaximumDelay) in
  0 <= n < 2 ^ 63 \/ (n = 2 ^ 64 - 1 /\ m_lBufferSize e = 1).
Proof.
  intros Hnew n. unfold DelayLine_new, to_ulong in Hnew. fold n in Hnew.
  destruct (0 <=? n) eqn:Hlo; [| done]. destruct (n <? Word.modulus) eqn:Hhi; [| done].
  apply Z.leb_le in Hlo. apply Z.ltb_lt in Hhi. rewrite modulus_eq in Hhi.
  cbn [andb mbind option_bind] in Hnew.
  destruct (grow_buffer fuel 1 (Word.add n 1)) as [lSize |] eqn:Hrun; [| done].
  cbn in Hnew. injection Hnew as <-. cbn.
  destruct (Z.lt_ge_cases n (2 ^ 63)) as [Hsmall | Hbig]; [left; lia | right].
  destruct (Z.eq_dec n (2 ^ 64 - 1)) as [-> | Hne].
  - split; [done |]. revert Hrun. change (Word.add (2 ^ 64 - 1) 1) with 0.
    destruct fuel; cbn; congruence.
  - exfalso. assert (Word.add n 1 = n + 1) as Hmin.
    { unfold Word.add, Word.wrap. apply Z.mod_small. rewrite modulus_eq. lia. }
    rewrite Hmin, (grow_buffer_diverges (n + 1)) in Hrun; [done | lia |].
    right. exists 0. split; [lia | done].
Qed.

End ConstructionDomain.

Lemma capacity_at_most_double_witness :
  (0 <= 48000)%Z /\ fle fzero (frac 1 10) /\
  (trunc (fmul (of_ulong 48000) (frac 1 10)) < 2 ^ 63)%Z /\ (64 <= 64)%nat /\
  exists e,
    DelayLine_new 64 48000 (frac 1 10) Demo.fresh Demo.lStale = Some e /\
    (trunc (fmul (of_ulong 48000) (frac 1 10)) < m_lBufferSize e)%Z /\
    (m_lBufferSize e
       <= Z.max 1 (2 * trunc (fmul (of_ulong 48000) (frac 1 10))))%Z.
Proof.
  assert (0 <= 48000)%Z as H1 by lia.
  assert (fle fzero (frac 1 10)) as H2 by reflexivity.
  assert (trunc (fmul (of_ulong 48000) (frac 1 10)) < 2 ^ 63)%Z as H3
    by (vm_compute; reflexivity).
  assert (64 <= 64)%nat as H4 by lia.
  repeat split; try assumption.
  exact (capacity_at_most_double 64 48000 (frac 1 10) Demo.fresh Demo.lStale H1 H2 H3 H4).
Defined.

Lemma constructor_domain_witness :
  DelayLine_new 64 8 1%Qc Demo.fresh Demo.lStale = Some Demo.raw /\
  ((0 <= trunc (fmul (of_ulong 8) 1%Qc) < 2 ^ 63)%Z \/
   (trunc (fmul (of_ulong 8) 1%Qc) = 2 ^ 64 - 1 /\ m_lBufferSize Demo.raw = 1)%Z).
Proof.
  assert (DelayLine_new 64 8 1%Qc Demo.fresh Demo.lStale = Some Demo.raw) as Hnew
    by (vm_compute; reflexivity).
  split; [exact Hnew |].
  exact (constructor_domain 64 8 1%Qc Demo.fresh Demo.lStale Demo.raw Hnew).
Defined.

(** ** What a run leaves alone *)

Section Locality.

Context {D : Type} `{SampleLaws D}.

Add Ring sample_ring_locality : sample_ring.

Implicit Types (e : DelayLine D) (ports : Ports D) (buf : list D) (i w r c : Z).

Lemma simple_loop_elsewhere c w r (fDry fWet : D) (k : nat) input : forall buf i out buf',
  Word.pow2 c -> Z.of_nat (length buf) = c ->
  simple_loop buf (Word.sub c 1) w r fDry fWet i input = Some (out, buf') ->
  (forall j : nat, (j < length input)%nat -> k <> Z.to_nat ((i + Z.of_nat j + w) mod c)) ->
  buf' !! k = buf !! k.
Proof.
  induction input as [| x rest IH]; intros buf i out buf' Hc Hlen Hrun Hk.
  - cbn in Hrun. by injection Hrun as <- <-.
  - destruct (simple_loop_step c buf w r fDry fWet i x rest Hc Hlen) as (v & _ & Heq).
    rewrite Heq in Hrun.
    destruct (simple_loop _ _ _ _ _ _ (Word.add i 1) rest) as [[o b] |] eqn:Hrest; [| done].
    cbn in Hrun. injection Hrun as <- <-.
    rewrite (IH _ _ _ _ Hc ltac:(by rewrite length_insert) Hrest).
    + apply list_lookup_insert_ne. specialize (Hk 0%nat ltac:(cbn; lia)).
      rewrite Z.add_0_r in Hk. done.
    + intros j Hj. specialize (Hk (S j) ltac:(cbn; lia)).
      replace (Word.add i 1 + Z.of_nat j + w) with (Word.add i 1 + (Z.of_nat j + w)) by lia.
      rewrite next_index_mod by done.
      by replace (i + (Z.of_nat j + w) + 1) with (i + Z.of_nat (S j) + w) by lia.
Qed.

Lemma feedback_loop_elsewhere c w r (fDry fWet fFeedback : D) (k : nat) input :
  forall buf i out buf',
  Word.pow2 c -> Z.of_nat (length buf) = c ->
  feedback_loop buf (Word.sub c 1) w r fDry fWet fFeedback i input = Some (out, buf') ->
  (forall j : nat, (j < length input)%nat -> k <> Z.to_nat ((i + Z.of_nat j + w) mod c)) ->
  buf' !! k = buf !! k.
Proof.
  induction input as [| x rest IH]; intros buf i out buf' Hc Hlen Hrun Hk.
  - cbn in Hrun. by injection Hrun as <- <-.
  - destruct (feedback_loop_step c buf w r fDry fWet fFeedback i x rest Hc Hlen)
      as (v & _ & Heq).
    rewrite Heq in Hrun.
    destruct (feedback_loop _ _ _ _ _ _ _ (Word.add i 1) rest) as [[o b] |] eqn:Hrest;
      [| done].
    cbn in Hrun. injection Hrun as <- <-.
    rewrite (IH _ _ _ _ Hc ltac:(by rewrite length_insert) Hrest).
    + apply list_lookup_insert_ne. specialize (Hk 0%nat ltac:(cbn; lia)).
      rewrite Z.add_0_r in Hk. done.
    + intros j Hj. specialize (Hk (S j) ltac:(cbn; lia)).
      replace (Word.add i 1 + Z.of_nat j + w) with (Word.add i 1 + (Z.of_nat j + w)) by lia.
      rewrite next_index_mod by done.
      by replace (i + (Z.of_nat j + w) + 1) with (i + Z.of_nat (S j) + w) by lia.
Qed.

(** X10.  A run of [n] samples stores only to the [n] slots that follow the
    write pointer, modulo the buffer size: every other slot of the buffer
    holds after the run what it held before, for either run function. *)
Theorem run_stores_in_window (t : DelayType) e ports :
  wf e ->
  exists out e',
    afRunFunctions t e ports = Some (out, e') /\
    forall k : nat,
      ~ written (m_lBufferSize e) (m_lWritePointer e) (length (DL_INPUT ports)) k ->
      m_pfBuffer e' !! k = m_pfBuffer e !! k.
Proof.
  intros He.
  destruct (run_returns t e ports He) as (out & e' & Hrun & _).
  exists out, e'. split; [done |]. intros k Hk.
  destruct (delay_samples_wf e (DL_DELAY_LENGTH ports) He) as (lDelay & Hd & _).
  assert (forall j : nat, (j < length (DL_INPUT ports))%nat ->
            k <> Z.to_nat ((0 + Z.of_nat j + m_lWritePointer e) mod m_lBufferSize e))
    as Hk'.
  { intros j Hj ->. apply Hk. exists j. split; [done |]. do 2 f_equal. lia. }
  destruct t; cbn [afRunFunctions] in Hrun.
  - rewrite (runSimpleDelayLine_eq e ports lDelay He Hd) in Hrun.
    destruct (simple_loop _ _ _ _ _ _ _ _) as [[o b] |] eqn:Hloop; [| done].
    cbn in Hrun. injection Hrun as <- <-. cbn.
    eapply simple_loop_elsewhere; [apply He | apply He | exact Hloop | exact Hk'].
  - rewrite (runFeedbackDelayLine_eq e ports lDelay He Hd) in Hrun.
    destruct (feedback_loop _ _ _ _ _ _ _ _ _) as [[o b] |] eqn:Hloop; [| done].
    cbn in Hrun. injection Hrun as <- <-. cbn.
    eapply feedback_loop_elsewhere; [apply He | apply He | exact Hloop | exact Hk'].
Qed.

(** X11.  A run on an empty block puts out nothing and leaves the buffer as it
    is; it reduces the write pointer modulo the buffer size, which leaves
    a pointer set by activation or by an earlier run as it is. *)
Theorem run_empty_block (t : DelayType) e (fDelay fWet fFeedback : D) :
  wf e ->
  afRunFunctions t e (mkPorts fDelay fWet [] fFeedback)
    = Some ([], mkDelayLine (m_fSampleRate e) (m_fMaximumDelay e) (m_pfBuffer e)
                  (m_lBufferSize e) (m_lWritePointer e mod m_lBufferSize e)) /\
  (0 <= m_lWritePointer e < m_lBufferSize e ->
   afRunFunctions t e (mkPorts fDelay fWet [] fFeedback) = Some ([], e)).
Proof.
  intros He.
  destruct (delay_samples_wf e fDelay He) as (lDelay & Hd & _).
  assert (afRunFunctions t e (mkPorts fDelay fWet [] fFeedback)
          = Some ([], mkDelayLine (m_fSampleRate e) (m_fMaximumDelay e) (m_pfBuffer e)
                        (m_lBufferSize e) (m_lWritePointer e mod m_lBufferSize e))) as Hrun.
  { destruct t; cbn [afRunFunctions].
    - rewrite (runSimpleDelayLine_eq e (mkPorts fDelay fWet [] fFeedback) lDelay He Hd).
      cbn. by rewrite Z.add_0_r.
    - rewrite (runFeedbackDelayLine_eq e (mkPorts fDelay fWet [] fFeedback) lDelay He Hd).
      cbn. by rewrite Z.add_0_r. }
  split; [done |]. intros Hw. rewrite Hrun, Z.mod_small by done. by destruct e.
Qed.

Lemma feedback_loop_dry c w r (fFeedback : D) input : forall buf i,
  Word.pow2 c -> Z.of_nat (length buf) = c ->
  exists buf',
    feedback_loop buf (Word.sub c 1) w r (fsub fone fzero) fzero fFeedback i input
      = Some (input, buf').
Proof.
  induction input as [| x rest IH]; intros buf i Hc Hlen.
  - by exists buf.
  - destruct (feedback_loop_step c buf w r (fsub fone fzero) fzero fFeedback i x rest
                Hc Hlen) as (v & _ & ->).
    destruct (IH (<[Z.to_nat ((i + w) mod c) := fadd x (fmul v fFeedback)]> buf)
                 (Word.add i 1) Hc)
      as (buf' & ->); [by rewrite length_insert |].
    exists buf'. cbn. do 2 f_equal. f_equal. ring.
Qed.

(** X12.  With the wet control at or below 0, either run function puts out its
    input block unchanged, whatever the delay, the feedback and the
    history in the buffer. *)
Theorem dry_passthrough (t : DelayType) e ports :
  wf e -> fle (DL_DRY_WET ports) fzero ->
  exists e', afRunFunctions t e ports = Some (DL_INPUT ports, e').
Proof.
  intros He Hwet.
  assert (LIMIT_BETWEEN (DL_DRY_WET ports) fzero fone = fzero) as Hclamp.
  { destruct (fle_lt_or_eq _ _ Hwet) as [Hlt | Heq].
    - by apply LIMIT_BETWEEN_below.
    - rewrite Heq. apply LIMIT_BETWEEN_inside; [apply fle_refl | apply fle_zero_one]. }
  destruct (delay_samples_wf e (DL_DELAY_LENGTH ports) He) as (lDelay & Hd & _).
  destruct t; cbn [afRunFunctions].
  - rewrite (runSimpleDelayLine_eq e ports lDelay He Hd), Hclamp.
    edestruct (simple_loop_dry (m_lBufferSize e)) as (buf' & ->);
      [apply He | apply He |].
    cbn. eauto.
  - rewrite (runFeedbackDelayLine_eq e ports lDelay He Hd), Hclamp.
    edestruct (feedback_loop_dry (m_lBufferSize e)) as (buf' & ->);
      [apply He | apply He |].
    cbn. eauto.
Qed.

End Locality.

Lemma run_stores_in_window_witness :
  wf Demo.primed /\
  exists out e',
    afRunFunctions Feedback Demo.primed
      (Demo.call (frac 1 4) (frac 1 2) (frac 1 2) [3; 1; 4]%Z) = Some (out, e') /\
    forall k : nat,
      ~ written (m_lBufferSize Demo.primed) (m_lWritePointer Demo.primed)
          (length (DL_INPUT (Demo.call (frac 1 4) (frac 1 2) (frac 1 2) [3; 1; 4]%Z))) k ->
      m_pfBuffer e' !! k = m_pfBuffer Demo.primed !! k.
Proof.
  split; [exact primed_wf |].
  exact (run_stores_in_window Feedback Demo.primed
           (Demo.call (frac 1 4) (frac 1 2) (frac 1 2) [3; 1; 4]%Z) primed_wf).
Defined.

Lemma run_empty_block_witness :
  wf Demo.raw /\
  afRunFunctions Echo Demo.raw (mkPorts (frac 1 4) (frac 1 2) [] 0%Qc)
    = Some ([], mkDelayLine (m_fSampleRate Demo.raw) (m_fMaximumDelay Demo.raw)
                  (m_pfBuffer Demo.raw) (m_lBufferSize Demo.raw)
                  (m_lWritePointer Demo.raw mod m_lBufferSize Demo.raw)%Z) /\
  ((0 <= m_lWritePointer Demo.raw < m_lBufferSize Demo.raw)%Z ->
   afRunFunctions Echo Demo.raw (mkPorts (frac 1 4) (frac 1 2) [] 0%Qc)
     = Some ([], Demo.raw)).
Proof.
  split; [exact raw_wf |].
  exact (run_empty_block Echo Demo.raw (frac 1 4) (frac 1 2) 0%Qc raw_wf).
Defined.

Lemma dry_passthrough_witness :
  wf Demo.primed /\
  fle (DL_DRY_WET (Demo.call (frac 1 4) (frac (-1) 2) (frac 1 2) [3; 1; 4]%Z)) fzero /\
  exists e',
    afRunFunctions Feedback Demo.primed
      (Demo.call (frac 1 4) (frac (-1) 2) (frac 1 2) [3; 1; 4]%Z)
    = Some (samples [3; 1; 4]%Z, e').
Proof.
  split; [exact primed_wf |]. split; [reflexivity |].
  exact (dry_passthrough Feedback Demo.primed
           (Demo.call (frac 1 4) (frac (-1) 2) (frac 1 2) [3; 1; 4]%Z) primed_wf eq_refl).
Defined.

(** ** The registered plugins *)

Section RegistryFacts.

Import Registry.

Local Open Scope Qc_scope.

(** X15.  [initialise_delay] registers ten descriptors, the one of delay type
    [t] and maximum delay [l] at place [5 t + l] and with unique ID
    [1053 + 5 t + l]; no two of them have the same unique ID or the same
    label, and every label and name fits its buffer of 100 characters. *)
Theorem registration_ids :
  exists ds,
    initialise_delay = Some ds /\
    length ds = (DELAY_TYPE_COUNT * DELAY_LENGTH_COUNT)%nat /\
    (forall t l : nat, (t < DELAY_TYPE_COUNT)%nat -> (l < DELAY_LENGTH_COUNT)%nat ->
       exists d, describe t l = Some d /\
                 ds !! (t * DELAY_LENGTH_COUNT + l)%nat = Some d /\
                 lUniqueID d = (1053 + Z.of_nat (t * DELAY_LENGTH_COUNT + l))%Z) /\
    NoDup (map lUniqueID ds) /\ NoDup (map pcLabel ds).
Proof.
  destruct initialise_delay as [ds |] eqn:Hds; [| by vm_compute in Hds].
  exists ds. split; [done |].
  assert (Some ds = initialise_delay) as Hds' by done. clear Hds.
  unfold initialise_delay in Hds'. cbn in Hds'. injection Hds' as ->.
  split; [done |]. split; [| split].
  - intros t l Ht Hl. unfold DELAY_TYPE_COUNT, DELAY_LENGTH_COUNT in *.
    destruct t as [| [| t]]; [| | lia];
      (destruct l as [| [| [| [| [| l]]]]]; [| | | | | lia]);
      (eexists; split; [reflexivity |]; split; reflexivity).
  - apply (bool_decide_unpack _). vm_compute. exact I.
  - apply (bool_decide_unpack _). vm_compute. exact I.
Qed.

End RegistryFacts.

(** ** Impulse response of the feedback delay *)

Section FeedbackImpulse.

Context {D : Type} `{SampleLaws D}.

Add Ring sample_ring_comb : sample_ring.

Implicit Types (e : DelayLine D) (stored input : list D).

Lemma feedback_stream_app (fDry fWet fFeedback : D) lDelay a b : forall stored,
  feedback_stream fDry fWet fFeedback lDelay stored (a ++ b)
    = let '(out1, stored1) := feedback_stream fDry fWet fFeedback lDelay stored a in
      let '(out2, stored2) := feedback_stream fDry fWet fFeedback lDelay stored1 b in
      (out1 ++ out2, stored2).
Proof.
  induction a as [| x a IH]; intros stored.
  - cbn. by destruct (feedback_stream _ _ _ _ stored b).
  - cbn [app feedback_stream]. rewrite IH.
    destruct (feedback_stream _ _ _ _ _ a) as [out1 stored1].
    by destruct (feedback_stream _ _ _ _ stored1 b).
Qed.

Lemma feedback_stream_length (fDry fWet fFeedback : D) lDelay input : forall stored,
  length (feedback_stream fDry fWet fFeedback lDelay stored input).1 = length input.
Proof.
  induction input as [| x rest IH]; intros stored; [done |].
  cbn [feedback_stream]. specialize (IH (stored ++ [fadd x
    (fmul (at_time stored (Z.of_nat (length stored) - lDelay)) fFeedback)])).
  destruct (feedback_stream _ _ _ _ _ rest). cbn in *. by rewrite IH.
Qed.

(** With the same controls for every block, the blocks of the feedback
    comb are the comb of the whole stream, cut the same way. *)
Lemma feedback_blocks_const e (fDelay fWet fFeedback : D) blocks : forall stored,
  concat (feedback_blocks e stored (feedback_calls fDelay fWet fFeedback blocks))
    = (feedback_stream (fsub fone (LIMIT_BETWEEN fWet fzero fone))
         (LIMIT_BETWEEN fWet fzero fone)
         (LIMIT_BETWEEN fFeedback (fopp fone) fone)
         (feedback_delay (control_delay e (mkPorts fDelay fWet [] fFeedback)))
         stored (concat blocks)).1 /\
  map length (feedback_blocks e stored (feedback_calls fDelay fWet fFeedback blocks))
    = map length blocks.
Proof.
  induction blocks as [| block blocks IH]; intros stored; [done |].
  cbn [feedback_calls map feedback_blocks concat DL_INPUT DL_DRY_WET DL_FEEDBACK].
  change (control_delay e (mkPorts fDelay fWet block fFeedback))
    with (control_delay e (mkPorts fDelay fWet [] fFeedback)).
  rewrite feedback_stream_app.
  pose proof (feedback_stream_length
                (fsub fone (LIMIT_BETWEEN fWet fzero fone))
                (LIMIT_BETWEEN fWet fzero fone)
                (LIMIT_BETWEEN fFeedback (fopp fone) fone)
                (feedback_delay (control_delay e (mkPorts fDelay fWet [] fFeedback)))
                block stored) as Hlen.
  destruct (feedback_stream _ _ _ _ stored block) as [out1 stored1].
  fold (feedback_calls fDelay fWet fFeedback blocks).
  destruct (IH stored1) as [Hout Hlens].
  destruct (feedback_stream _ _ _ _ stored1 (concat blocks)) as [out2 stored2].
  cbn in *. by rewrite Hout, Hlens, Hlen.
Qed.

Lemma comb_response_negative (g : D) lDelay s : s < 0 -> comb_response g lDelay s = fzero.
Proof.
  intros Hs. unfold comb_response.
  assert ((0 <=? s) = false) as -> by (apply Z.leb_gt; lia). done.
Qed.

Lemma comb_response_zero (g : D) lDelay : 1 <= lDelay -> comb_response g lDelay 0 = fone.
Proof. intros Hd. unfold comb_response. by rewrite Z.mod_0_l, Z.div_0_l by lia. Qed.

(** Past its first impulse, the train at a time is [g] times the train
    one delay earlier. *)
Lemma comb_response_step (g : D) lDelay s :
  1 <= lDelay -> s <> 0 ->
  comb_response g lDelay s = fmul (comb_response g lDelay (s - lDelay)) g.
Proof.
  intros Hd Hs. unfold comb_response.
  assert ((s - lDelay) mod lDelay = s mod lDelay) as Hmod.
  { replace (s - lDelay) with (s + (-1) * lDelay) by lia. apply Z.mod_add. lia. }
  assert ((s - lDelay) / lDelay = s / lDelay - 1) as Hdiv.
  { replace (s - lDelay) with (s + (-1) * lDelay) by lia. rewrite Z.div_add by lia. lia. }
  rewrite Hmod, Hdiv.
  destruct (s mod lDelay =? 0) eqn:Hz;
    [| rewrite !andb_false_r; ring].
  apply Z.eqb_eq in Hz. rewrite !andb_true_r.
  destruct (0 <=? s) eqn:Hpos.
  - apply Z.leb_le in Hpos.
    assert (lDelay <= s) as Hge.
    { pose proof (Z.div_mod s lDelay ltac:(lia)) as Hdm. rewrite Hz in Hdm.
      assert (0 < s / lDelay) by nia. nia. }
    assert ((0 <=? s - lDelay) = true) as -> by (apply Z.leb_le; lia).
    assert (1 <= s / lDelay) as Hq by (apply Z.div_le_lower_bound; lia).
    replace (Z.to_nat (s / lDelay)) with (S (Z.to_nat (s / lDelay - 1))) by lia.
    cbn [fpow]. ring.
  - apply Z.leb_gt in Hpos.
    assert ((0 <=? s - lDelay) = false) as -> by (apply Z.leb_gt; lia). ring.
Qed.

(** The feedback comb on an impulse: the stored samples are the train of
    impulses that starts with the impulse. *)
Lemma feedback_stream_impulse (fDry fWet g : D) lDelay (p : Z) input : forall stored,
  1 <= lDelay ->
  (forall s, s < Z.of_nat (length stored) ->
     at_time stored s = comb_response g lDelay (s - p)) ->
  (forall (j : nat) x, input !! j = Some x ->
     x = if decide (Z.of_nat (length stored) + Z.of_nat j = p) then fone else fzero) ->
  forall (j : nat) x, input !! j = Some x ->
    (feedback_stream fDry fWet g lDelay stored input).1 !! j
      = Some (fadd (fmul fDry x)
                (fmul fWet (comb_response g lDelay
                              (Z.of_nat (length stored) + Z.of_nat j - lDelay - p)))).
Proof.
  induction input as [| y rest IH]; intros stored Hd Hinv Hin j x Hj; [done |].
  cbn [feedback_stream].
  set (v := at_time stored (Z.of_nat (length stored) - lDelay)).
  assert (v = comb_response g lDelay (Z.of_nat (length stored) - lDelay - p)) as Hv
    by (apply Hinv; lia).
  specialize (IH (stored ++ [fadd y (fmul v g)]) Hd).
  destruct (feedback_stream fDry fWet g lDelay (stored ++ [fadd y (fmul v g)]) rest)
    as [out stored'] eqn:Hrest.
  destruct j as [| j]; cbn in Hj |- *.
  - injection Hj as ->. by rewrite Hv, Z.add_0_r.
  - cbn [fst] in IH. rewrite (IH) with (x := x); [| | | done].
    + rewrite length_app. cbn [length]. do 4 f_equal. lia.
    + intros s Hs. rewrite length_app, Nat.add_1_r, Nat2Z.inj_succ in Hs.
      destruct (Z.eq_dec s (Z.of_nat (length stored))) as [-> | Hne].
      * rewrite at_time_last.
        specialize (Hin 0%nat y eq_refl). rewrite Z.add_0_r in Hin.
        destruct (decide (Z.of_nat (length stored) = p)) as [Hp | Hp].
        -- rewrite Hin, Hv, Hp, Z.sub_diag, comb_response_zero by done.
           rewrite comb_response_negative by lia. ring.
        -- rewrite Hin, (comb_response_step g lDelay (Z.of_nat (length stored) - p))
             by (done || lia).
           rewrite Hv.
           replace (Z.of_nat (length stored) - p - lDelay)
             with (Z.of_nat (length stored) - lDelay - p) by lia.
           ring.
      * rewrite at_time_app_l by lia. apply Hinv. lia.
    + intros j' x' Hj'. rewrite (Hin (S j') x' Hj'), length_app. cbn [length].
      repeat case_decide; (done || lia).
Qed.

(** X6.  From an activated instance, the feedback delay with the wet control at
    1, run on an impulse cut into blocks in any way: the output is a
    train of echoes, the first of them 1 at one delay after the impulse,
    every further one a delay later and the feedback times the one
    before; all other samples are 0.  The delay is the delay control in
    samples, 1 when that is 0; the feedback is the control saturated to
    the range from -1 to 1. *)
Theorem feedback_impulse_response e (fDelay fFeedback : D) (blocks : list (list D))
    (p q : nat) :
  wf e -> concat blocks = impulse p q ->
  let lDelay := feedback_delay (control_delay e (mkPorts fDelay fone [] fFeedback)) in
  let g := LIMIT_BETWEEN fFeedback (fopp fone) fone in
  exists outs e',
    run_blocks Feedback (activateDelayLine e) (feedback_calls fDelay fone fFeedback blocks)
      = Some (outs, e') /\
    map length outs = map length blocks /\
    forall j : nat, (j < p + 1 + q)%nat ->
      concat outs !! j
        = Some (comb_response g lDelay (Z.of_nat j - Z.of_nat p - lDelay)).
Proof.
  intros He Hblocks lDelay g.
  destruct (run_blocks_feedback_blocks (feedback_calls fDelay fone fFeedback blocks)
              (activateDelayLine e) [])
    as (e' & Hrun); [by apply activate_wf | done | exact (holds_past_activated e He) |].
  rewrite (feedback_blocks_ext e (activateDelayLine e)) in Hrun by done.
  destruct (feedback_blocks_const e fDelay fone fFeedback blocks []) as [Hout Hlens].
  eexists _, e'. split; [exact Hrun |]. split; [exact Hlens |].
  intros j Hj. rewrite Hout, Hblocks.
  destruct (lookup_lt_is_Some_2 (impulse p q : list D) j) as [x Hx];
    [by rewrite impulse_length |].
  assert (1 <= lDelay) as Hd.
  { unfold lDelay, feedback_delay.
    destruct (delay_samples_control e (mkPorts fDelay fone [] fFeedback) He) as [_ Hb].
    destruct (_ =? 0) eqn:Hz; [lia |]. apply Z.eqb_neq in Hz. lia. }
  rewrite (feedback_stream_impulse _ _ g lDelay (Z.of_nat p) (impulse p q) [] Hd)
    with (x := x); [| | | done].
  - rewrite LIMIT_BETWEEN_inside by (apply fle_zero_one || apply fle_refl).
    cbn [length]. f_equal.
    replace (Z.of_nat 0 + Z.of_nat j - lDelay - Z.of_nat p)
      with (Z.of_nat j - Z.of_nat p - lDelay) by lia.
    ring.
  - cbn [length]. intros s Hs. unfold at_time.
    assert ((s <? 0) = true) as -> by (apply Z.ltb_lt; lia).
    by rewrite comb_response_negative by lia.
  - intros j' x' Hj'. cbn [length].
    pose proof (at_time_impulse p q (Z.of_nat j')) as Hat.
    unfold at_time in Hat. assert ((Z.of_nat j' <? 0) = false) as Hn by (apply Z.ltb_ge; lia).
    rewrite Hn, Nat2Z.id, Hj' in Hat. cbn in Hat. rewrite Hat.
    repeat case_decide; (done || lia).
Qed.

End FeedbackImpulse.

Lemma feedback_impulse_response_witness :
  wf Demo.raw /\
  concat [samples [0; 1]%Z; samples [0; 0; 0]%Z] = impulse 1 3 /\
  exists outs e',
    run_blocks Feedback (activateDelayLine Demo.raw)
      (feedback_calls (frac 1 4) fone (frac 1 2) [samples [0; 1]%Z; samples [0; 0; 0]%Z])
      = Some (outs, e') /\
    map length outs = map length [samples [0; 1]%Z; samples [0; 0; 0]%Z] /\
    forall j : nat, (j < 1 + 1 + 3)%nat ->
      concat outs !! j
        = Some (comb_response (LIMIT_BETWEEN (frac 1 2) (fopp fone) fone)
                  (feedback_delay (control_delay Demo.raw
                                     (mkPorts (frac 1 4) fone [] (frac 1 2))))
                  (Z.of_nat j - Z.of_nat 1
                   - feedback_delay (control_delay Demo.raw
                                       (mkPorts (frac 1 4) fone [] (frac 1 2))))).
Proof.
  split; [exact raw_wf |]. split; [reflexivity |].
  exact (feedback_impulse_response Demo.raw (frac 1 4) (frac 1 2)
           [samples [0; 1]%Z; samples [0; 0; 0]%Z] 1 3 raw_wf eq_refl).
Defined.
